(** * Task-Manager: the task store and its persistence adapter

    A shallow embedding of [task_manager.py]: the values the [json] module
    exchanges with the program, the data file, [load_tasks] and [save_tasks],
    the [Task] and [TaskManager] classes and the menu branches of [main],
    followed by the properties of the task store. *)

From Stdlib Require Import String Ascii List ZArith Bool Lia Sorted.
Import ListNotations.

#[local] Set Warnings "-register-all".

Open Scope string_scope.
Open Scope Z_scope.

(** ** Python values *)

(** The values [json.load] can return and [json.dumps] can print.  A float is
    kept as its literal: the program never computes with one.  A [dict] is an
    association list in insertion order whose keys are strings (a JSON object
    has no other keys). *)
Inductive pyval : Type :=
| PNone
| PBool (b : bool)
| PInt (z : Z)
| PFloat (lit : string)
| PStr (s : string)
| PList (items : list pyval)
| PDict (entries : list (string * pyval)).

(** [dict.get]-like lookup of a key. *)
Fixpoint dict_get (k : string) (d : list (string * pyval)) : option pyval :=
  match d with
  | [] => None
  | (k', v) :: d' => if String.eqb k k' then Some v else dict_get k d'
  end.

(** [d[k] = v]: an existing key keeps its position, a new key goes last. *)
Fixpoint dict_set (k : string) (v : pyval) (d : list (string * pyval))
  : list (string * pyval) :=
  match d with
  | [] => [(k, v)]
  | (k', v') :: d' =>
      if String.eqb k k' then (k', v) :: d' else (k', v') :: dict_set k v d'
  end.

(** [dict(pairs)]: the pairs are inserted from left to right. *)
Definition dict_of_pairs (pairs : list (string * pyval)) : list (string * pyval) :=
  fold_left (fun d kv => dict_set (fst kv) (snd kv) d) pairs [].

(** A float literal denotes zero when its mantissa has no digit but 0
    ([NaN] and [Infinity] are not zero; underflow of the exponent is not
    modelled). *)
Fixpoint mantissa_is_zero (lit : string) : bool :=
  match lit with
  | EmptyString => true
  | String c lit' =>
      if existsb (Ascii.eqb c) ["e"; "E"]%char then true
      else existsb (Ascii.eqb c) ["0"; "."; "-"]%char && mantissa_is_zero lit'
  end.

(** Python truth value, as tested by [or], [if] and [not]. *)
Definition truthy (v : pyval) : bool :=
  match v with
  | PNone => false
  | PBool b => b
  | PInt z => negb (z =? 0)
  | PFloat lit => negb (mantissa_is_zero lit)
  | PStr s => negb (String.eqb s "")
  | PList l => match l with [] => false | _ => true end
  | PDict d => match d with [] => false | _ => true end
  end.

(** [isinstance(v, int)], with the integer it stands for: [bool] is a
    subclass of [int] in Python, [True] is 1 and [False] is 0. *)
Definition as_int (v : pyval) : option Z :=
  match v with
  | PInt z => Some z
  | PBool b => Some (if b then 1 else 0)
  | _ => None
  end.

Definition isinstance_int (v : pyval) : bool :=
  match as_int v with Some _ => true | None => false end.

(** The keys of a dict are pairwise different at every depth: what holds of
    every Python [dict]. *)
Fixpoint keys_unique (v : pyval) : Prop :=
  match v with
  | PList l =>
      (fix all (l : list pyval) : Prop :=
         match l with [] => True | x :: l' => keys_unique x /\ all l' end) l
  | PDict d =>
      NoDup (map fst d) /\
      (fix all (d : list (string * pyval)) : Prop :=
         match d with [] => True | (_, x) :: d' => keys_unique x /\ all d' end) d
  | _ => True
  end.

(** ** JSON text *)

(** The text of a JSON document is modelled by its sequence of lexical
    tokens.  White space (and with it the [indent=2] layout) and the escapes
    inside string literals are below this level; [TBad] is a stretch of text
    that is no token. *)
Inductive token : Type :=
| LBracket | RBracket | LBrace | RBrace | Comma | Colon
| TNull | TTrue | TFalse
| TInt (z : Z)
| TFloat (lit : string)
| TStr (s : string)
| TBad.

(** [json.dumps(v, indent=2)]. *)
Fixpoint json_dumps (v : pyval) : list token :=
  match v with
  | PNone => [TNull]
  | PBool true => [TTrue]
  | PBool false => [TFalse]
  | PInt z => [TInt z]
  | PFloat lit => [TFloat lit]
  | PStr s => [TStr s]
  | PList [] => [LBracket; RBracket]
  | PList (x :: l) =>
      LBracket :: json_dumps x ++
      (fix items (l : list pyval) : list token :=
         match l with
         | [] => [RBracket]
         | y :: l' => Comma :: json_dumps y ++ items l'
         end) l
  | PDict [] => [LBrace; RBrace]
  | PDict ((k, x) :: d) =>
      LBrace :: TStr k :: Colon :: json_dumps x ++
      (fix members (d : list (string * pyval)) : list token :=
         match d with
         | [] => [RBrace]
         | (k', y) :: d' => Comma :: TStr k' :: Colon :: json_dumps y ++ members d'
         end) d
  end.

(** The decoder of [json.loads], by recursive descent.  [fuel] bounds the
    nesting of the calls; [json_loads] gives it the length of the text. *)
Fixpoint parse_value (fuel : nat) (ts : list token) : option (pyval * list token) :=
  match fuel with
  | O => None
  | S f =>
      match ts with
      | TNull :: r => Some (PNone, r)
      | TTrue :: r => Some (PBool true, r)
      | TFalse :: r => Some (PBool false, r)
      | TInt z :: r => Some (PInt z, r)
      | TFloat lit :: r => Some (PFloat lit, r)
      | TStr s :: r => Some (PStr s, r)
      | LBracket :: RBracket :: r => Some (PList [], r)
      | LBracket :: r =>
          match parse_items f r with
          | Some (l, r') => Some (PList l, r')
          | None => None
          end
      | LBrace :: RBrace :: r => Some (PDict [], r)
      | LBrace :: r =>
          match parse_members f r with
          | Some (d, r') => Some (PDict (dict_of_pairs d), r')
          | None => None
          end
      | _ => None
      end
  end
with parse_items (fuel : nat) (ts : list token) : option (list pyval * list token) :=
  match fuel with
  | O => None
  | S f =>
      match parse_value f ts with
      | Some (x, Comma :: r) =>
          match parse_items f r with
          | Some (l, r') => Some (x :: l, r')
          | None => None
          end
      | Some (x, RBracket :: r) => Some ([x], r)
      | _ => None
      end
  end
with parse_members (fuel : nat) (ts : list token)
  : option (list (string * pyval) * list token) :=
  match fuel with
  | O => None
  | S f =>
      match ts with
      | TStr k :: Colon :: r =>
          match parse_value f r with
          | Some (x, Comma :: r') =>
              match parse_members f r' with
              | Some (d, r'') => Some ((k, x) :: d, r'')
              | None => None
              end
          | Some (x, RBrace :: r') => Some ([(k, x)], r')
          | _ => None
          end
      | _ => None
      end
  end.

(** [json.loads]: [None] stands for [json.JSONDecodeError], raised also when
    text is left after the value.  The limits of the interpreter (the depth
    of the recursion, the number of digits of an integer) are not modelled. *)
Definition json_loads (ts : list token) : option pyval :=
  match parse_value (length ts) ts with
  | Some (v, []) => Some v
  | _ => None
  end.

(** ** The world of the program *)

(** The data file [tasks.json] as [load_tasks] can find it. *)
Inductive file : Type :=
| Missing                     (* [DATA_FILE.exists()] is false *)
| Unreadable                  (* opening or reading raises [OSError] ([IOError]) *)
| Undecodable                 (* the bytes are no text in the encoding of [open]:
                                 reading raises [UnicodeDecodeError] *)
| Text (ts : list token).     (* the file reads as this text *)

(** What the program shares with its environment: the data file, the lines
    [console.print] has printed and the prompts of [input], the lines still
    to be typed, the clock ([time k] is what
    [datetime.now().strftime('%Y-%m-%d %H:%M:%S')] returns at its [k]-th
    call), the module constant [current_time], printed as text, and the
    markup parser of the console: [markup_error text] says whether [rich]
    raises [MarkupError] on a text that has a [[] in it, as it does on a
    closing tag such as [[/x]] that closes nothing. *)
Record World : Type := mkWorld {
  data_file : file;
  console : list string;
  stdin : list string;
  time : nat -> string;
  ticks : nat;
  current_time : string;
  markup_error : string -> bool
}.

(** The exceptions that leave a function of the program. *)
Inductive exn : Type := TypeError | EOFError | UnicodeDecodeError | MarkupError.

Inductive result (A : Type) : Type :=
| Ret (a : A)
| Raise (e : exn).
Arguments Ret {A} a.
Arguments Raise {A} e.

(** A computation reads and changes the world and returns or raises. *)
Definition M (A : Type) : Type := World -> result A * World.

Definition ret {A} (a : A) : M A := fun w => (Ret a, w).
Definition raise {A} (e : exn) : M A := fun w => (Raise e, w).
Definition bind {A B} (c : M A) (k : A -> M B) : M B :=
  fun w =>
    match c w with
    | (Ret a, w') => k a w'
    | (Raise e, w') => (Raise e, w')
    end.

Notation "x <- c ;; k" := (bind c (fun x => k))
  (at level 61, c at next level, right associativity).
Notation "c ;;; k" := (bind c (fun _ => k))
  (at level 61, right associativity).

(** The double quote inside the messages. *)
Definition dq : string := String (ascii_of_nat 34) EmptyString.

(** The text has a [[] in it: only then [rich] looks for markup. *)
Definition has_bracket (text : string) : bool :=
  existsb (Ascii.eqb "["%char) (list_ascii_of_string text).

(** [console.print] raises [MarkupError] on the text and prints nothing. *)
Definition rejected (text : string) (w : World) : bool :=
  has_bracket text && markup_error w text.

(** [console.print(text, ...)]: the text is read as console markup, and
    [line] is what is printed: the text and after it the other objects, which
    are printed as they are. *)
Definition console_print_line (text line : string) : M unit :=
  fun w =>
    if rejected text w then (Raise MarkupError, w)
    else (Ret tt,
          mkWorld (data_file w) (console w ++ [line]) (stdin w)
                  (time w) (ticks w) (current_time w) (markup_error w)).

(** [console.print(text)]. *)
Definition console_print (text : string) : M unit :=
  console_print_line text text.

(** [input(prompt)]: the prompt is shown and the next line is read;
    [EOFError] at the end of the input. *)
Definition input (prompt : string) : M string :=
  fun w =>
    let w' := mkWorld (data_file w) (console w ++ [prompt]) (stdin w)
                      (time w) (ticks w) (current_time w) (markup_error w) in
    match stdin w with
    | [] => (Raise EOFError, w')
    | line :: rest =>
        (Ret line,
         mkWorld (data_file w) (console w ++ [prompt]) rest
                 (time w) (ticks w) (current_time w) (markup_error w))
    end.

(** [datetime.now().strftime('%Y-%m-%d %H:%M:%S')]. *)
Definition strftime_now : M string :=
  fun w => (Ret (time w (ticks w)),
            mkWorld (data_file w) (console w) (stdin w)
                    (time w) (S (ticks w)) (current_time w) (markup_error w)).

(** [DATA_FILE.write_text(text)]: the whole file is replaced.  A write that
    fails is not modelled. *)
Definition write_text (text : list token) : M unit :=
  fun w => (Ret tt,
            mkWorld (Text text) (console w) (stdin w)
                    (time w) (ticks w) (current_time w) (markup_error w)).

Definition get_world : M World := fun w => (Ret w, w).

(** ** The persistence adapter *)

Definition load_tasks : M pyval :=
  w <- get_world ;;
  match data_file w with
  | Missing =>
      write_text (json_dumps (PList [])) ;;;
      console_print "No JSON file detected, creating file..." ;;;
      ret (PList [])
  | Unreadable => ret (PList [])
  | Undecodable => raise UnicodeDecodeError
  | Text ts =>
      match json_loads ts with
      | Some v => ret v
      | None => ret (PList [])
      end
  end.

Definition save_tasks (tasks : pyval) : M unit :=
  write_text (json_dumps tasks).

(** ** Tasks *)

Record Task : Type := mkTask {
  title : pyval;
  description : pyval;
  status : pyval;
  created : pyval;
  number : pyval
}.

(** [Task.__init__]: [created or datetime.now().strftime(...)] reads the
    clock only when [created] is false. *)
Definition Task_init (title description status created number : pyval) : M Task :=
  created' <- (if truthy created then ret created
               else now <- strftime_now ;; ret (PStr now)) ;;
  ret (mkTask title description status created' number).

Definition mark_complete (t : Task) : Task :=
  mkTask (title t) (description t) (PStr "Complete") (created t) (number t).

(** [task.__dict__]: the attributes in the order [__init__] sets them. *)
Definition task_dict (t : Task) : pyval :=
  PDict [("title", title t); ("description", description t);
         ("status", status t); ("created", created t); ("number", number t)].

Definition tasks_doc (ts : list Task) : pyval := PList (map task_dict ts).

(** [Task] called with the entries of [doc] as keyword arguments: [doc] has
    to be a mapping, its keys have to be parameters of [__init__] other than
    [self], and [title] and [description] have no default. *)
Definition Task_parameters : list string :=
  ["title"; "description"; "status"; "created"; "number"].

Definition Task_of_doc (doc : pyval) : M Task :=
  match doc with
  | PDict d =>
      if forallb (fun kv => existsb (String.eqb (fst kv)) Task_parameters) d then
        match dict_get "title" d, dict_get "description" d with
        | Some t, Some de =>
            Task_init t de
              (match dict_get "status" d with Some s => s | None => PStr "Incomplete" end)
              (match dict_get "created" d with Some c => c | None => PNone end)
              (match dict_get "number" d with Some n => n | None => PNone end)
        | _, _ => raise TypeError
        end
      else raise TypeError
  | _ => raise TypeError
  end.

(** [for task in loaded_tasks]: a list gives its items, a dict its keys, a
    string its characters; nothing else can be iterated. *)
Definition py_iter (v : pyval) : M (list pyval) :=
  match v with
  | PList l => ret l
  | PDict d => ret (map (fun kv => PStr (fst kv)) d)
  | PStr s => ret (map (fun c => PStr (String c EmptyString)) (list_ascii_of_string s))
  | _ => raise TypeError
  end.

(** The list comprehension of [TaskManager.__init__]: a [Task] from every
    loaded document, in order. *)
Fixpoint Tasks_of_docs (docs : list pyval) : M (list Task) :=
  match docs with
  | [] => ret []
  | doc :: docs' =>
      t <- Task_of_doc doc ;;
      ts <- Tasks_of_docs docs' ;;
      ret (t :: ts)
  end.

(** ** The task store *)

Record TaskManager : Type := mkTaskManager {
  tasks : list Task;
  next_number : Z
}.

(** A method changes its object and the world and returns or raises; what it
    has assigned to the object before it raises stays assigned. *)
Definition Method (A : Type) : Type :=
  TaskManager -> World -> result A * TaskManager * World.

Definition mret {A} (a : A) : Method A := fun self w => (Ret a, self, w).
Definition mbind {A B} (c : Method A) (k : A -> Method B) : Method B :=
  fun self w =>
    match c self w with
    | (Ret a, self', w') => k a self' w'
    | (Raise e, self', w') => (Raise e, self', w')
    end.

(** A computation on the world, run inside a method. *)
Definition lift {A} (c : M A) : Method A :=
  fun self w => let (r, w') := c w in (r, self, w').

Definition get_self : Method TaskManager := fun self w => (Ret self, self, w).
Definition set_tasks (ts : list Task) : Method unit :=
  fun self w => (Ret tt, mkTaskManager ts (next_number self), w).
Definition set_next_number (n : Z) : Method unit :=
  fun self w => (Ret tt, mkTaskManager (tasks self) n, w).

Notation "x <~ c ;; k" := (mbind c (fun x => k))
  (at level 61, c at next level, right associativity).
Notation "c ~;; k" := (mbind c (fun _ => k))
  (at level 61, right associativity).

Definition set_number (t : Task) (n : pyval) : Task :=
  mkTask (title t) (description t) (status t) (created t) n.

Definition is_None (v : pyval) : bool :=
  match v with PNone => true | _ => false end.

(** The integer of a number that passed [isinstance(_, int)]. *)
Definition int_of (v : pyval) : Z :=
  match as_int v with Some z => z | None => 0 end.

(** The loop of [TaskManager.__init__] under [# Fix missing numbers]: from
    [next_number] on, it returns the tasks and the last [next_number]. *)
Fixpoint fix_missing_numbers (next_number : Z) (ts : list Task) : list Task * Z :=
  match ts with
  | [] => ([], next_number)
  | task :: ts' =>
      let task' :=
        if negb (isinstance_int (number task)) || is_None (number task)
        then set_number task (PInt next_number)
        else task in
      let next_number' := Z.max next_number (int_of (number task') + 1) in
      let (ts'', last) := fix_missing_numbers next_number' ts' in
      (task' :: ts'', last)
  end.

(** [TaskManager.__init__]. *)
Definition TaskManager_init : M TaskManager :=
  loaded_tasks <- load_tasks ;;
  docs <- py_iter loaded_tasks ;;
  ts <- Tasks_of_docs docs ;;
  let (ts', next_number) := fix_missing_numbers 1 ts in
  save_tasks (tasks_doc ts') ;;;
  ret (mkTaskManager ts' (next_number - 1)).

(** [add_task]; like every method below it returns [None]. *)
Definition add_task (title description : string) : Method pyval :=
  self <~ get_self ;;
  set_next_number (next_number self + 1) ~;;
  task <~ lift (Task_init (PStr title) (PStr description) (PStr "Incomplete")
                          PNone (PInt (next_number self + 1))) ;;
  set_tasks (tasks self ++ [task]) ~;;
  lift (save_tasks (tasks_doc (tasks self ++ [task]))) ~;;
  lift (console_print ("Task " ++ dq ++ title ++ dq ++ " added successfully!")) ~;;
  mret PNone.

(** [task.title == title] for the string [title]. *)
Definition has_title (title' : string) (task : Task) : bool :=
  match title task with
  | PStr s => String.eqb s title'
  | _ => false
  end.

(** The loop of [mark_task_complete]: the first task with the title is
    marked, [None] when the loop ends without a match. *)
Fixpoint mark_first (title : string) (ts : list Task) : option (list Task) :=
  match ts with
  | [] => None
  | task :: ts' =>
      if has_title title task then Some (mark_complete task :: ts')
      else option_map (cons task) (mark_first title ts')
  end.

Definition not_found_message (title : string) : string :=
  "No task with title " ++ dq ++ title ++ dq ++ " found.".

Definition mark_task_complete (title : string) : Method pyval :=
  self <~ get_self ;;
  match mark_first title (tasks self) with
  | Some ts =>
      set_tasks ts ~;;
      w <~ lift get_world ;;
      lift (console_print_line
              ("Task " ++ dq ++ title ++ dq ++ " marked as complete!")
              ("Task " ++ dq ++ title ++ dq ++ " marked as complete! "
               ++ current_time w)) ~;;
      mret PNone
  | None =>
      lift (console_print (not_found_message title)) ~;;
      mret PNone
  end.

(** The loop of [delete_task]: [self.tasks.remove(task)] for the first task
    with the title. *)
Fixpoint delete_first (title : string) (ts : list Task) : option (list Task) :=
  match ts with
  | [] => None
  | task :: ts' =>
      if has_title title task then Some ts'
      else option_map (cons task) (delete_first title ts')
  end.

Definition delete_task (title : string) : Method pyval :=
  self <~ get_self ;;
  match delete_first title (tasks self) with
  | Some ts =>
      set_tasks ts ~;;
      lift (console_print ("Task " ++ dq ++ title ++ dq ++ " deleted successfully!")) ~;;
      mret PNone
  | None =>
      lift (console_print (not_found_message title)) ~;;
      mret PNone
  end.

Definition clear_task : Method pyval :=
  set_tasks [] ~;;
  lift (console_print "Task list cleared!") ~;;
  mret PNone.

(** The two assignments of [update_task] under [if new_title:] and
    [if new_description:]. *)
Definition update_fields (new_title new_description : string) (task : Task) : Task :=
  let task1 :=
    if negb (String.eqb new_title "")
    then mkTask (PStr new_title) (description task) (status task)
                (created task) (number task)
    else task in
  if negb (String.eqb new_description "")
  then mkTask (title task1) (PStr new_description) (status task1)
              (created task1) (number task1)
  else task1.

(** The loop of [update_task]: at the first task with the title the two
    values are asked for and assigned; [None] when the loop ends without a
    match. *)
Fixpoint update_loop (title : string) (ts : list Task) : M (option (list Task)) :=
  match ts with
  | [] => ret None
  | task :: ts' =>
      if has_title title task then
        new_title <- input "Enter new title or (leave blank to keep current title):" ;;
        new_description <-
          input "Enter new description or (leave blank to keep current description):" ;;
        ret (Some (update_fields new_title new_description task :: ts'))
      else
        r <- update_loop title ts' ;;
        ret (option_map (cons task) r)
  end.

(** [update_task]: the parameters [new_title] and [new_description] are
    assigned from [input] in the loop before they are read. *)
Definition update_task (title : string) (new_title new_description : pyval)
  : Method pyval :=
  self <~ get_self ;;
  r <~ lift (update_loop title (tasks self)) ;;
  match r with
  | Some ts =>
      set_tasks ts ~;;
      lift (console_print ("Task " ++ dq ++ title ++ dq ++ " updated successfully!")) ~;;
      mret PNone
  | None =>
      lift (console_print (not_found_message title)) ~;;
      mret PNone
  end.

(** ** The menu branches of [main] *)

(** The save at the end of a branch:
    [save_tasks([task.__dict__ for task in task_manager.tasks])]. *)
Definition save_store : Method unit :=
  task_manager <~ get_self ;;
  lift (save_tasks (tasks_doc (tasks task_manager))).





Definition main_choice_6 : Method unit :=
  clear_task ~;;
  save_store.

(** ** Auxiliary definitions of the proofs *)

(** The tail of a printed list and of a printed dict, after the first item. *)
Fixpoint dumps_items (l : list pyval) : list token :=
  match l with
  | [] => [RBracket]
  | y :: l' => Comma :: json_dumps y ++ dumps_items l'
  end.

Fixpoint dumps_members (d : list (string * pyval)) : list token :=
  match d with
  | [] => [RBrace]
  | (k, y) :: d' => Comma :: TStr k :: Colon :: json_dumps y ++ dumps_members d'
  end.

(** The numbers of the tasks, as integers. *)
Definition numbers (ts : list Task) : list Z := map (fun t => int_of (number t)) ts.

(** A successful parse consumes at least one token, and as much fuel as it
    consumes tokens is enough for it. *)
Definition consumes {A} (parse : nat -> list token -> option (A * list token))
    (ts : list token) (a : A) (r : list token) : Prop :=
  exists c, (1 <= c)%nat /\ length ts = (c + length r)%nat /\
            forall fuel, (c <= fuel)%nat -> parse fuel ts = Some (a, r).

(** A sequence of [add_task] calls, one per pair of title and description,
    made one after the other whether or not one of them raised. *)
Fixpoint add_tasks (args : list (string * string)) (self : TaskManager)
    (w : World) : TaskManager * World :=
  match args with
  | [] => (self, w)
  | (title, description) :: args' =>
      let '(_, self', w') := add_task title description self w in
      add_tasks args' self' w'
  end.

(** [next_number] after the repair loop has passed the (repaired) tasks [ts]:
    the larger of [next_number] and one more than their greatest number. *)
Definition next_after (next_number : Z) (ts : list Task) : Z :=
  fold_left (fun n t => Z.max n (int_of (number t) + 1)) ts next_number.

(** The [n] integers from [first] on. *)
Fixpoint count_from (first : Z) (n : nat) : list Z :=
  match n with
  | O => []
  | S n' => first :: count_from (first + 1) n'
  end.

(** The numbers [first], [first + 1], ... given to [ts]. *)
Fixpoint renumber (first : Z) (ts : list Task) : list Task :=
  match ts with
  | [] => []
  | t :: ts' => set_number t (PInt first) :: renumber (first + 1) ts'
  end.


(** Two data files that are well-formed JSON: a list whose only object has no
    [title], and a list whose only item is a number. *)
Definition text_without_title : list token :=
  [LBracket; LBrace; TStr "description"; Colon; TStr "d"; RBrace; RBracket].

Definition text_of_number : list token := [LBracket; TInt 1; RBracket].

(** The world after [text] went to the console. *)
Definition printed (text : string) (w : World) : World :=
  mkWorld (data_file w) (console w ++ [text]) (stdin w)
          (time w) (ticks w) (current_time w) (markup_error w).

(** What a method returns after [console.print(text)] as its last statement,
    and the world it leaves. *)
Definition print_result (text : string) (w : World) : result pyval :=
  if rejected text w then Raise MarkupError else Ret PNone.

Definition print_world_line (text line : string) (w : World) : World :=
  if rejected text w then w else printed line w.

Definition print_world (text : string) (w : World) : World :=
  print_world_line text text w.


(** The messages of the methods. *)
Definition added_message (title : string) : string :=
  "Task " ++ dq ++ title ++ dq ++ " added successfully!".

Definition deleted_message (title : string) : string :=
  "Task " ++ dq ++ title ++ dq ++ " deleted successfully!".

Definition updated_message (title : string) : string :=
  "Task " ++ dq ++ title ++ dq ++ " updated successfully!".

Definition completed_message (title : string) : string :=
  "Task " ++ dq ++ title ++ dq ++ " marked as complete!".

(** The line [mark_task_complete] prints: the message and [current_time]. *)
Definition completed_line (title : string) (w : World) : string :=
  "Task " ++ dq ++ title ++ dq ++ " marked as complete! " ++ current_time w.

(** A closing tag right after its [[]: a []] comes before any other [[]. *)
Fixpoint closing_tag_ends (s : string) : bool :=
  match s with
  | EmptyString => false
  | String c s' =>
      if Ascii.eqb c "]"%char then true
      else if Ascii.eqb c "["%char then false
      else closing_tag_ends s'
  end.

(** The first [[] of the text, with no backslash before it, starts a closing
    tag: [rich] raises [MarkupError] on such a text, since the tag closes
    what none has opened. *)
Fixpoint closes_unopened (s : string) : bool :=
  match s with
  | EmptyString => false
  | String c s' =>
      if Ascii.eqb c "\"%char then false
      else if Ascii.eqb c "["%char then
        match s' with
        | String "/"%char s'' => closing_tag_ends s''
        | _ => false
        end
      else closes_unopened s'
  end.

(** A data file of two tasks: the first without a [number], the second with
    the number 1. *)
Definition text_missing_then_one : list token :=
  json_dumps
    (PList [PDict [("title", PStr "a"); ("description", PStr "d")];
            PDict [("title", PStr "b"); ("description", PStr "d");
                   ("number", PInt 1)]]).

(** A world to run examples in; of the errors of the markup parser its
    console has the one of [closes_unopened]. *)
Definition example_world (f : file) (typed : list string) : World :=
  mkWorld f [] typed (fun _ => "2024-05-01 10:00:00") 0
          "2024-05-01 09:59:58.123456" closes_unopened.

Definition example_task (title' : string) (n : pyval) : Task :=
  mkTask (PStr title') (PStr "d") (PStr "Incomplete")
         (PStr "2024-04-30 08:00:00") n.

(** A store with one task titled A and two titled B. *)
Definition example_store : TaskManager :=
  mkTaskManager [example_task "A" (PInt 1); example_task "B" (PInt 2);
                 example_task "B" (PInt 3)] 3.

(** A document [Task] can be built from: a dict whose keys are parameters of
    [Task.__init__] and that has a [title] and a [description]. *)
Definition valid_doc (doc : pyval) : bool :=
  match doc with
  | PDict d =>
      forallb (fun kv => existsb (String.eqb (fst kv)) Task_parameters) d &&
      match dict_get "title" d, dict_get "description" d with
      | Some _, Some _ => true
      | _, _ => false
      end
  | _ => false
  end.

(** The numbers of the store are integers, pairwise different and not above
    the counter. *)
Definition numbered (self : TaskManager) : Prop :=
  Forall (fun t => isinstance_int (number t) = true) (tasks self) /\
  NoDup (numbers (tasks self)) /\
  Forall (fun z => z <= next_number self) (numbers (tasks self)).

(** A loaded value [TaskManager.__init__] can build its tasks from: a list
    of valid documents, or a dict or a string with nothing to iterate. *)
Definition loadable (v : pyval) : bool :=
  match v with
  | PList l => forallb valid_doc l
  | PDict [] => true
  | PStr s => String.eqb s ""
  | _ => false
  end.

(** Two worlds that differ at most in the number of clock readings. *)
Definition same_but_clock (w w' : World) : Prop :=
  data_file w' = data_file w /\ console w' = console w /\
  stdin w' = stdin w /\ time w' = time w /\
  current_time w' = current_time w /\ markup_error w' = markup_error w /\
  (ticks w <= ticks w')%nat.

(** ** Induction on Python values *)

Section PyvalInd.
Variable P : pyval -> Prop.
Hypothesis HNone : P PNone.
Hypothesis HBool : forall b, P (PBool b).
Hypothesis HInt : forall z, P (PInt z).
Hypothesis HFloat : forall lit, P (PFloat lit).
Hypothesis HStr : forall s, P (PStr s).
Hypothesis HList : forall l, Forall P l -> P (PList l).
Hypothesis HDict : forall d, Forall (fun kv => P (snd kv)) d -> P (PDict d).

Fixpoint pyval_nested_ind (v : pyval) : P v :=
  match v with
  | PNone => HNone
  | PBool b => HBool b
  | PInt z => HInt z
  | PFloat lit => HFloat lit
  | PStr s => HStr s
  | PList l =>
      HList l
        ((fix all (l : list pyval) : Forall P l :=
            match l with
            | [] => Forall_nil P
            | x :: l' => Forall_cons x (pyval_nested_ind x) (all l')
            end) l)
  | PDict d =>
      HDict d
        ((fix all (d : list (string * pyval))
            : Forall (fun kv => P (snd kv)) d :=
            match d with
            | [] => Forall_nil _
            | kv :: d' =>
                Forall_cons kv (pyval_nested_ind (snd kv)) (all d')
            end) d)
  end.
End PyvalInd.

(** * Properties *)

Open Scope list_scope.

(** ** The JSON codec *)

Lemma json_dumps_list_cons x l :
  json_dumps (PList (x :: l)) = LBracket :: json_dumps x ++ dumps_items l.
Proof. reflexivity. Qed.

Lemma json_dumps_dict_cons k x d :
  json_dumps (PDict ((k, x) :: d)) =
  LBrace :: TStr k :: Colon :: json_dumps x ++ dumps_members d.
Proof. reflexivity. Qed.

Lemma keys_unique_list l : keys_unique (PList l) <-> Forall keys_unique l.
Proof.
  induction l as [|x l IH]; simpl.
  - split; auto.
  - split.
    + intros [Hx Hl]. constructor; [exact Hx | now apply IH].
    + intros H. inversion H; subst. split; [assumption | now apply IH].
Qed.

Lemma keys_unique_dict d :
  keys_unique (PDict d) <->
  NoDup (map fst d) /\ Forall (fun kv => keys_unique (snd kv)) d.
Proof.
  simpl. apply and_iff_compat_l.
  induction d as [|[k x] d IH]; simpl.
  - split; auto.
  - split.
    + intros [Hx Hd]. constructor; [exact Hx | now apply IH].
    + intros H. inversion H; subst. split; [assumption | now apply IH].
Qed.

(** A printed value has at least one token and does not start like the end
    of a list or of a dict. *)
Lemma json_dumps_head v :
  exists t r, json_dumps v = t :: r /\ t <> RBracket /\ t <> RBrace.
Proof.
  destruct v as [ |[|]| | | |[|x l]|[|[k x] d]]; simpl;
    eexists; eexists; (split; [reflexivity | split; discriminate]).
Qed.

Lemma json_dumps_length v : (1 <= length (json_dumps v))%nat.
Proof.
  destruct (json_dumps_head v) as (t & r & E & _). rewrite E. simpl. lia.
Qed.

Lemma dict_set_fresh k v d :
  ~ In k (map fst d) -> dict_set k v d = d ++ [(k, v)].
Proof.
  induction d as [|[k' v'] d IH]; simpl; intros H; [reflexivity|].
  destruct (String.eqb_spec k k') as [->|_].
  - exfalso. apply H. now left.
  - rewrite IH; [reflexivity | tauto].
Qed.

Lemma dict_of_pairs_app acc d :
  NoDup (map fst (acc ++ d)) ->
  fold_left (fun d kv => dict_set (fst kv) (snd kv) d) d acc = acc ++ d.
Proof.
  revert acc. induction d as [|[k v] d IH]; simpl; intros acc H.
  - now rewrite app_nil_r.
  - rewrite dict_set_fresh.
    + rewrite IH; rewrite <- app_assoc; [reflexivity | exact H].
    + rewrite map_app in H. simpl in H. apply NoDup_remove_2 in H.
      intros Hin. apply H. apply in_or_app. now left.
Qed.

Lemma dict_of_pairs_unique d : NoDup (map fst d) -> dict_of_pairs d = d.
Proof. intros H. unfold dict_of_pairs. now rewrite dict_of_pairs_app. Qed.

(** The items after the first one of a printed list parse back. *)
Lemma parse_items_dumps l :
  Forall (fun v => forall fuel rest,
            (length (json_dumps v) <= fuel)%nat ->
            parse_value fuel (json_dumps v ++ rest) = Some (v, rest)) l ->
  forall x fuel rest,
    (forall fuel rest,
        (length (json_dumps x) <= fuel)%nat ->
        parse_value fuel (json_dumps x ++ rest) = Some (x, rest)) ->
    (length (json_dumps x ++ dumps_items l) <= fuel)%nat ->
    parse_items fuel (json_dumps x ++ dumps_items l ++ rest) = Some (x :: l, rest).
Proof.
  induction 1 as [|y l Hy Hl IH]; intros x fuel rest Hx Hlen;
    rewrite length_app in Hlen; simpl in Hlen;
    (destruct fuel as [|f]; [lia|]); simpl.
  - rewrite Hx by lia. reflexivity.
  - rewrite Hx by lia. simpl.
    rewrite <- app_assoc.
    rewrite (IH y f rest Hy); [reflexivity|].
    rewrite length_app in *. pose proof (json_dumps_length x). lia.
Qed.

Lemma parse_members_dumps d :
  Forall (fun kv => forall fuel rest,
            (length (json_dumps (snd kv)) <= fuel)%nat ->
            parse_value fuel (json_dumps (snd kv) ++ rest) = Some (snd kv, rest)) d ->
  forall k x fuel rest,
    (forall fuel rest,
        (length (json_dumps x) <= fuel)%nat ->
        parse_value fuel (json_dumps x ++ rest) = Some (x, rest)) ->
    (2 + length (json_dumps x ++ dumps_members d) <= fuel)%nat ->
    parse_members fuel (TStr k :: Colon :: json_dumps x ++ dumps_members d ++ rest)
    = Some ((k, x) :: d, rest).
Proof.
  induction 1 as [|[k' y] d Hy Hd IH]; intros k x fuel rest Hx Hlen;
    rewrite length_app in Hlen; simpl in Hlen;
    (destruct fuel as [|f]; [lia|]); simpl.
  - rewrite Hx by lia. reflexivity.
  - rewrite Hx by lia. simpl.
    rewrite <- app_assoc.
    rewrite (IH k' y f rest Hy); [reflexivity|].
    rewrite length_app in *. lia.
Qed.

(** Parsing what [json_dumps] printed gives the value back and stops after
    it, with fuel for the length of the print. *)
Lemma parse_value_dumps v :
  keys_unique v ->
  forall fuel rest,
    (length (json_dumps v) <= fuel)%nat ->
    parse_value fuel (json_dumps v ++ rest) = Some (v, rest).
Proof.
  induction v as [ |b|z|lit|s|l IH|d IH] using pyval_nested_ind;
    intros Hk fuel rest Hlen.
  1-5: try (destruct b); destruct fuel as [|f]; simpl in Hlen;
       (lia || reflexivity).
  - apply keys_unique_list in Hk.
    destruct l as [|x l].
    + destruct fuel as [|f]; simpl in Hlen; [lia | reflexivity].
    + rewrite json_dumps_list_cons in *.
      inversion IH as [|? ? IHx IHl]; subst.
      inversion Hk as [|? ? Hkx Hkl]; subst.
      destruct fuel as [|f]; simpl in Hlen; [lia|].
      rewrite <- app_comm_cons, <- app_assoc.
      assert (Hit : parse_items f (json_dumps x ++ dumps_items l ++ rest)
                    = Some (x :: l, rest)).
      { apply parse_items_dumps; [ | auto | lia].
        clear -IHl Hkl. induction IHl as [|y l Hy _ IH]; constructor.
        - inversion Hkl; subst. auto.
        - inversion Hkl; subst. auto. }
      destruct (json_dumps_head x) as (t & r & E & Ht & _).
      rewrite E in *. simpl. simpl in Hit.
      destruct t; try congruence; now rewrite Hit.
  - apply keys_unique_dict in Hk. destruct Hk as [Hnd Hk].
    destruct d as [|[k x] d].
    + destruct fuel as [|f]; simpl in Hlen; [lia | reflexivity].
    + rewrite json_dumps_dict_cons in *.
      inversion IH as [|? ? IHx IHd]; subst. simpl in IHx.
      inversion Hk as [|? ? Hkx Hkd]; subst. simpl in Hkx.
      destruct fuel as [|f]; simpl in Hlen; [lia|].
      assert (Hm : parse_members f
                     (TStr k :: Colon :: json_dumps x ++ dumps_members d ++ rest)
                   = Some ((k, x) :: d, rest)).
      { apply parse_members_dumps; [ | auto | simpl; lia].
        clear -IHd Hkd. induction IHd as [|y l Hy _ IH]; constructor.
        - inversion Hkd; subst. auto.
        - inversion Hkd; subst. auto. }
      simpl app. rewrite <- app_assoc.
      cbn [parse_value]. rewrite Hm.
      now rewrite dict_of_pairs_unique.
Qed.

(** [json.loads] undoes [json.dumps]. *)
Lemma json_loads_dumps v : keys_unique v -> json_loads (json_dumps v) = Some v.
Proof.
  intros Hk. unfold json_loads.
  rewrite <- (app_nil_r (json_dumps v)) at 2.
  rewrite parse_value_dumps; auto.
Qed.

(** *** The fuel of the parser *)

Lemma parse_consumes fuel :
  (forall ts v r, parse_value fuel ts = Some (v, r) -> consumes parse_value ts v r) /\
  (forall ts l r, parse_items fuel ts = Some (l, r) -> consumes parse_items ts l r) /\
  (forall ts d r, parse_members fuel ts = Some (d, r) -> consumes parse_members ts d r).
Proof.
  induction fuel as [|f (IHv & IHi & IHm)];
    [repeat split; intros; discriminate|].
  repeat split.
  - intros ts v r H. simpl in H.
    destruct ts as [|t ts]; [discriminate|].
    destruct t; try discriminate;
      try (injection H as <- <-; exists 1%nat; repeat split;
           [lia | intros [|g] Hg; [lia | reflexivity]]).
    + (* a list *)
      assert (Hcases : (exists r0, ts = RBracket :: r0 /\ v = PList [] /\ r = r0) \/
                       (exists l, v = PList l /\
                                  parse_items f ts = Some (l, r) /\
                                  forall r0, ts <> RBracket :: r0)).
      { destruct ts as [|t ts].
        - right. destruct (parse_items f []) as [[l r']|] eqn:E; [|discriminate].
          injection H as <- <-. exists l. repeat split; congruence.
        - destruct t;
            try (right; destruct (parse_items f _) as [[l r']|] eqn:E;
                 [|discriminate]; injection H as <- <-; exists l;
                 repeat split; congruence).
          left. injection H as <- <-. eauto. }
      destruct Hcases as [(r0 & -> & -> & ->) | (l & -> & Hi & Hne)].
      * exists 2%nat. repeat split; [lia|]. intros [|g] Hg; [lia | reflexivity].
      * destruct (IHi _ _ _ Hi) as (c & Hc & Hlen & Hall).
        exists (S c). repeat split; [lia | simpl; lia |].
        intros [|g] Hg; [lia|]. simpl.
        rewrite (Hall g) by lia.
        destruct ts as [|t ts]; [reflexivity|].
        destruct t; try reflexivity. exfalso. eapply Hne. reflexivity.
    + (* a dict *)
      assert (Hcases : (exists r0, ts = RBrace :: r0 /\ v = PDict [] /\ r = r0) \/
                       (exists d, v = PDict (dict_of_pairs d) /\
                                  parse_members f ts = Some (d, r) /\
                                  forall r0, ts <> RBrace :: r0)).
      { destruct ts as [|t ts].
        - right. destruct (parse_members f []) as [[d r']|] eqn:E; [|discriminate].
          injection H as <- <-. exists d. repeat split; congruence.
        - destruct t;
            try (right; destruct (parse_members f _) as [[d r']|] eqn:E;
                 [|discriminate]; injection H as <- <-; exists d;
                 repeat split; congruence).
          left. injection H as <- <-. eauto. }
      destruct Hcases as [(r0 & -> & -> & ->) | (d & -> & Hm & Hne)].
      * exists 2%nat. repeat split; [lia|]. intros [|g] Hg; [lia | reflexivity].
      * destruct (IHm _ _ _ Hm) as (c & Hc & Hlen & Hall).
        exists (S c). repeat split; [lia | simpl; lia |].
        intros [|g] Hg; [lia|]. simpl.
        rewrite (Hall g) by lia.
        destruct ts as [|t ts]; [reflexivity|].
        destruct t; try reflexivity. exfalso. eapply Hne. reflexivity.
  - intros ts l r H. simpl in H.
    destruct (parse_value f ts) as [[x r1]|] eqn:Ev; [|discriminate].
    destruct (IHv _ _ _ Ev) as (c1 & Hc1 & Hlen1 & Hall1).
    destruct r1 as [|t r1]; [discriminate|].
    destruct t; try discriminate.
    + injection H as <- <-.
      exists (S c1). repeat split; [lia | simpl in Hlen1; lia |].
      intros [|g] Hg; [lia|]. simpl. now rewrite (Hall1 g) by lia.
    + destruct (parse_items f r1) as [[l2 r2]|] eqn:Ei; [|discriminate].
      injection H as <- <-.
      destruct (IHi _ _ _ Ei) as (c2 & Hc2 & Hlen2 & Hall2).
      exists (S (c1 + c2)). repeat split; [lia | simpl in Hlen1; lia |].
      intros [|g] Hg; [lia|]. simpl.
      rewrite (Hall1 g) by lia. now rewrite (Hall2 g) by lia.
  - intros ts d r H. simpl in H.
    destruct ts as [|t ts]; [discriminate|].
    destruct t; try discriminate.
    destruct ts as [|t ts]; [discriminate|].
    destruct t; try discriminate.
    destruct (parse_value f ts) as [[x r1]|] eqn:Ev; [|discriminate].
    destruct (IHv _ _ _ Ev) as (c1 & Hc1 & Hlen1 & Hall1).
    destruct r1 as [|t r1]; [discriminate|].
    destruct t; try discriminate.
    + injection H as <- <-.
      exists (S (S (S c1))). repeat split; [lia | simpl in *; lia |].
      intros [|g] Hg; [lia|]. simpl. now rewrite (Hall1 g) by lia.
    + destruct (parse_members f r1) as [[d2 r2]|] eqn:Em; [|discriminate].
      injection H as <- <-.
      destruct (IHm _ _ _ Em) as (c2 & Hc2 & Hlen2 & Hall2).
      exists (S (S (S (c1 + c2)))). repeat split; [lia | simpl in *; lia |].
      intros [|g] Hg; [lia|]. simpl.
      rewrite (Hall1 g) by lia. now rewrite (Hall2 g) by lia.
Qed.

(** The fuel [json_loads] gives is enough: a text that parses with some fuel
    parses with the fuel of its length. *)
Lemma json_loads_complete fuel ts v :
  parse_value fuel ts = Some (v, []) -> json_loads ts = Some v.
Proof.
  intros H. destruct (parse_consumes fuel) as (Hv & _).
  destruct (Hv _ _ _ H) as (c & _ & Hlen & Hall).
  unfold json_loads. rewrite Hall; [reflexivity | simpl in Hlen; lia].
Qed.

(** ** The persistence adapter *)

(** Running a [bind] whose first computation returns. *)
Lemma bind_run {A B} (c : M A) (k : A -> M B) w a w1 :
  c w = (Ret a, w1) -> bind c k w = k a w1.
Proof. intros H. unfold bind. now rewrite H. Qed.


(** Running a method [mbind] whose first method returns, and a lifted
    computation. *)
Lemma mbind_run {A B} (c : Method A) (k : A -> Method B) self w a self1 w1 :
  c self w = (Ret a, self1, w1) -> mbind c k self w = k a self1 w1.
Proof. intros H. unfold mbind. now rewrite H. Qed.

Lemma lift_run {A} (c : M A) self w r w1 :
  c w = (r, w1) -> lift c self w = (r, self, w1).
Proof. intros H. unfold lift. now rewrite H. Qed.

(** What is left of a method from its last [console.print] on. *)
Lemma print_line_and_return text line self w :
  (lift (console_print_line text line) ~;; mret PNone) self w =
  (print_result text w, self, print_world_line text line w).
Proof.
  unfold mbind, lift, mret, console_print_line, print_result, print_world_line.
  now destruct (rejected text w).
Qed.

Lemma print_and_return text self w :
  (lift (console_print text) ~;; mret PNone) self w =
  (print_result text w, self, print_world text w).
Proof. apply print_line_and_return. Qed.

(** A text without a bracket is printed. *)
Lemma print_result_plain text w :
  has_bracket text = false -> print_result text w = Ret PNone.
Proof. intros H. unfold print_result, rejected. now rewrite H. Qed.

Lemma print_result_cases text w :
  print_result text w = Ret PNone \/ print_result text w = Raise MarkupError.
Proof. unfold print_result. destruct (rejected text w); auto. Qed.

Lemma print_world_line_file text line w :
  data_file (print_world_line text line w) = data_file w.
Proof. unfold print_world_line. now destruct (rejected text w). Qed.

Lemma print_world_file text w : data_file (print_world text w) = data_file w.
Proof. apply print_world_line_file. Qed.

(** A missing file is created with an empty list in it, and the empty list
    is returned. *)
Lemma load_tasks_missing w :
  data_file w = Missing ->
  exists w', load_tasks w = (Ret (PList []), w') /\
             data_file w' = Text [LBracket; RBracket].
Proof.
  intros H. unfold load_tasks, bind, get_world. rewrite H. simpl.
  eexists. split; reflexivity.
Qed.

(** [json.JSONDecodeError] is caught: a text that does not parse gives the
    empty list and stays as it is. *)
Lemma load_tasks_malformed w ts :
  data_file w = Text ts -> json_loads ts = None ->
  load_tasks w = (Ret (PList []), w).
Proof.
  intros H E. unfold load_tasks, bind, get_world. rewrite H, E. reflexivity.
Qed.

(** [IOError] is caught: a file that cannot be opened gives the empty list. *)
Lemma load_tasks_unreadable w :
  data_file w = Unreadable -> load_tasks w = (Ret (PList []), w).
Proof.
  intros H. unfold load_tasks, bind, get_world. rewrite H. reflexivity.
Qed.

(** A text that parses is returned as parsed. *)
Lemma load_tasks_parsed w ts v :
  data_file w = Text ts -> json_loads ts = Some v ->
  load_tasks w = (Ret v, w).
Proof.
  intros H E. unfold load_tasks, bind, get_world. rewrite H, E. reflexivity.
Qed.

(** C7 (failing input): a data file whose bytes are no text in the encoding
    [open] reads it with exists and cannot be read or parsed, yet [load_tasks]
    does not return the empty list: [UnicodeDecodeError] is neither a
    [json.JSONDecodeError] nor an [IOError] and leaves the function. *)
Theorem load_tasks_undecodable_raises :
  load_tasks (example_world Undecodable []) =
  (Raise UnicodeDecodeError, example_world Undecodable []).
Proof. reflexivity. Qed.

(** C8: saving a collection of task records and loading it again returns the
    same documents: as many as there were records, in the same order, each
    with the [title], [description], [status], [created] and [number] of its
    record. *)
Theorem save_load_roundtrip (ts : list Task) (w : World) :
  Forall (fun t => keys_unique (task_dict t)) ts ->
  exists w' docs,
    save_tasks (tasks_doc ts) w = (Ret tt, w') /\
    load_tasks w' = (Ret (PList docs), w') /\
    length docs = length ts /\
    forall i t, nth_error ts i = Some t ->
      exists d, nth_error docs i = Some (PDict d) /\
                dict_get "title" d = Some (title t) /\
                dict_get "description" d = Some (description t) /\
                dict_get "status" d = Some (status t) /\
                dict_get "created" d = Some (created t) /\
                dict_get "number" d = Some (number t).
Proof.
  intros Hk.
  eexists. exists (map task_dict ts). split; [reflexivity|]. split; [|split].
  - apply load_tasks_parsed with (ts := json_dumps (tasks_doc ts)); [reflexivity|].
    apply json_loads_dumps. apply keys_unique_list.
    apply Forall_map. exact Hk.
  - apply length_map.
  - intros i t Hi. exists [("title", title t); ("description", description t);
                          ("status", status t); ("created", created t);
                          ("number", number t)].
    split; [|repeat split].
    rewrite nth_error_map, Hi. reflexivity.
Qed.

Lemma save_load_roundtrip_witness :
  Forall (fun t => keys_unique (task_dict t)) (tasks example_store) /\
  exists w' docs,
    save_tasks (tasks_doc (tasks example_store)) (example_world Missing [])
    = (Ret tt, w') /\
    load_tasks w' = (Ret (PList docs), w') /\
    length docs = 3%nat.
Proof.
  assert (H : Forall (fun t => keys_unique (task_dict t)) (tasks example_store)).
  { repeat constructor; simpl; intuition discriminate. }
  split; [exact H|].
  destruct (save_load_roundtrip (tasks example_store) (example_world Missing []) H)
    as (w' & docs & H1 & H2 & H3 & _).
  exists w', docs. auto.
Defined.

(** C9: there are data files that parse as well-formed JSON and on which
    [TaskManager.__init__] raises while it builds the records, leaving the
    file as it was: a list whose object lacks [title], and a list whose item
    is not an object. *)
Theorem TaskManager_init_raises_on_parsed_file :
  (json_loads text_without_title = Some (PList [PDict [("description", PStr "d")]]) /\
   forall out typed clock k now rejects,
     TaskManager_init
       (mkWorld (Text text_without_title) out typed clock k now rejects)
     = (Raise TypeError,
        mkWorld (Text text_without_title) out typed clock k now rejects)) /\
  (json_loads text_of_number = Some (PList [PInt 1]) /\
   forall out typed clock k now rejects,
     TaskManager_init (mkWorld (Text text_of_number) out typed clock k now rejects)
     = (Raise TypeError,
        mkWorld (Text text_of_number) out typed clock k now rejects)).
Proof. repeat split. Qed.

(** ** Consecutive numbers *)

Lemma count_from_lower first n : Forall (fun z => first <= z) (count_from first n).
Proof.
  revert first. induction n as [|n IH]; intros first; simpl; constructor.
  - lia.
  - eapply Forall_impl; [|apply (IH (first + 1))]. simpl. intros; lia.
Qed.

Lemma count_from_sorted first n : StronglySorted Z.lt (count_from first n).
Proof.
  revert first. induction n as [|n IH]; intros first; simpl; constructor.
  - apply IH.
  - eapply Forall_impl; [|apply (count_from_lower (first + 1))].
    simpl. intros; lia.
Qed.

Lemma sorted_lt_NoDup l : StronglySorted Z.lt l -> NoDup l.
Proof.
  induction 1 as [|z l _ IH Hz]; constructor; [|exact IH].
  intros Hin. rewrite Forall_forall in Hz. specialize (Hz _ Hin). lia.
Qed.

(** ** Adding tasks *)

(** What one [add_task] does: the task is appended and saved, then the
    message is printed. *)
Lemma add_task_run title' description' self w :
  let task := mkTask (PStr title') (PStr description') (PStr "Incomplete")
                     (PStr (time w (ticks w))) (PInt (next_number self + 1)) in
  let self' := mkTaskManager (tasks self ++ [task]) (next_number self + 1) in
  let w1 := mkWorld (Text (json_dumps (tasks_doc (tasks self'))))
                    (console w) (stdin w) (time w) (S (ticks w))
                    (current_time w) (markup_error w) in
  add_task title' description' self w =
  (print_result (added_message title') w1, self',
   print_world (added_message title') w1).
Proof.
  cbv zeta. unfold add_task.
  rewrite (mbind_run _ _ _ _ _ _ _ eq_refl).
  rewrite (mbind_run _ _ _ _ _ _ _ eq_refl).
  rewrite (mbind_run _ _ _ _ _ _ _ eq_refl).
  rewrite (mbind_run _ _ _ _ _ _ _ eq_refl).
  rewrite (mbind_run _ _ _ _ _ _ _ eq_refl).
  apply print_and_return.
Qed.

Lemma add_tasks_run args : forall self w,
  exists new w',
    add_tasks args self w =
      (mkTaskManager (tasks self ++ new)
                     (next_number self + Z.of_nat (length args)), w') /\
    map title new = map (fun a => PStr (fst a)) args /\
    numbers new = count_from (next_number self + 1) (length args).
Proof.
  induction args as [|[t d] args IH]; intros self w.
  - exists [], w. simpl. rewrite app_nil_r, Z.add_0_r.
    destruct self; repeat split.
  - cbn [add_tasks]. rewrite add_task_run.
    match goal with |- context [add_tasks args ?s ?w0] =>
      destruct (IH s w0) as (new & w' & E & Ht & Hn) end.
    rewrite E. cbn [tasks next_number] in *.
    eexists (_ :: new), w'. split; [|split].
    + rewrite <- app_assoc. simpl.
      do 2 f_equal. lia.
    + simpl. now rewrite Ht.
    + unfold numbers in *. simpl. rewrite Hn. reflexivity.
Qed.

(** What [add_task] does on every state, whether or not its message is
    printed: it increments the counter and appends one record with the given
    title and description, status Incomplete, the current timestamp as
    [created] and the incremented counter as [number], and saves the
    collection; it returns [None] unless the console rejects the message.
    So the numbers a sequence of [add_task] calls assigns are consecutive
    from the counter on: strictly increasing and without duplicates. *)
Lemma add_task_appends_with_next_number :
  (forall title' description' self w,
      exists task r w',
        add_task title' description' self w =
          (r, mkTaskManager (tasks self ++ [task]) (next_number self + 1), w') /\
        task = mkTask (PStr title') (PStr description') (PStr "Incomplete")
                      (PStr (time w (ticks w))) (PInt (next_number self + 1)) /\
        data_file w' = Text (json_dumps (tasks_doc (tasks self ++ [task]))) /\
        (r = Ret PNone \/ r = Raise MarkupError) /\
        (has_bracket (added_message title') = false -> r = Ret PNone)) /\
  (forall args self w,
      exists new w',
        add_tasks args self w =
          (mkTaskManager (tasks self ++ new)
                         (next_number self + Z.of_nat (length args)), w') /\
        map title new = map (fun a => PStr (fst a)) args /\
        numbers new = count_from (next_number self + 1) (length args) /\
        StronglySorted Z.lt (numbers new) /\
        NoDup (numbers new)).
Proof.
  split.
  - intros. rewrite add_task_run. do 3 eexists. split; [reflexivity|].
    split; [reflexivity|]. split; [apply print_world_line_file|].
    split; [apply print_result_cases|]. apply print_result_plain.
  - intros args self w.
    destruct (add_tasks_run args self w) as (new & w' & E & Ht & Hn).
    exists new, w'. rewrite Hn. repeat split; auto.
    + apply count_from_sorted.
    + apply sorted_lt_NoDup, count_from_sorted.
Qed.

(** C5 (failing input): [add_task("[/x]", "d")].  The record is appended and
    saved, then [console.print] reads the title inside the message as a
    closing tag that closes nothing and raises [MarkupError]: [add_task]
    does not return, and nothing is printed. *)
Theorem add_task_raises_on_markup_in_title self w :
  markup_error w (added_message "[/x]") = true ->
  let task := mkTask (PStr "[/x]") (PStr "d") (PStr "Incomplete")
                     (PStr (time w (ticks w))) (PInt (next_number self + 1)) in
  add_task "[/x]" "d" self w =
  (Raise MarkupError,
   mkTaskManager (tasks self ++ [task]) (next_number self + 1),
   mkWorld (Text (json_dumps (tasks_doc (tasks self ++ [task]))))
           (console w) (stdin w) (time w) (S (ticks w))
           (current_time w) (markup_error w)).
Proof.
  intros H. cbv zeta. rewrite add_task_run.
  unfold print_result, print_world, print_world_line, rejected.
  cbn [markup_error tasks]. rewrite H. reflexivity.
Qed.

Lemma add_task_raises_on_markup_in_title_witness :
  closes_unopened (added_message "[/x]") = true /\
  add_task "[/x]" "d" (mkTaskManager [] 0) (example_world Missing []) =
  (Raise MarkupError,
   mkTaskManager [mkTask (PStr "[/x]") (PStr "d") (PStr "Incomplete")
                         (PStr "2024-05-01 10:00:00") (PInt 1)] 1,
   mkWorld (Text (json_dumps
                    (tasks_doc [mkTask (PStr "[/x]") (PStr "d") (PStr "Incomplete")
                                       (PStr "2024-05-01 10:00:00") (PInt 1)])))
           [] [] (fun _ => "2024-05-01 10:00:00") 1
           "2024-05-01 09:59:58.123456" closes_unopened).
Proof.
  split; [reflexivity|].
  exact (add_task_raises_on_markup_in_title (mkTaskManager [] 0)
           (example_world Missing []) eq_refl).
Defined.

(** ** Lookup by title *)

Lemma has_title_mark_complete title' task :
  has_title title' (mark_complete task) = has_title title' task.
Proof. reflexivity. Qed.

Lemma mark_first_split title' before task after :
  existsb (has_title title') before = false ->
  has_title title' task = true ->
  mark_first title' (before ++ task :: after) =
  Some (before ++ mark_complete task :: after).
Proof.
  intros Hb Ht. induction before as [|b before IH]; simpl in *.
  - now rewrite Ht.
  - apply orb_false_elim in Hb as [Hb1 Hb2]. rewrite Hb1, IH by assumption.
    reflexivity.
Qed.

Lemma delete_first_split title' before task after :
  existsb (has_title title') before = false ->
  has_title title' task = true ->
  delete_first title' (before ++ task :: after) = Some (before ++ after).
Proof.
  intros Hb Ht. induction before as [|b before IH]; simpl in *.
  - now rewrite Ht.
  - apply orb_false_elim in Hb as [Hb1 Hb2]. rewrite Hb1, IH by assumption.
    reflexivity.
Qed.


Lemma update_loop_split title' before task after
    f out typed_title typed_description typed clock k now rejects :
  existsb (has_title title') before = false ->
  has_title title' task = true ->
  exists out',
    update_loop title' (before ++ task :: after)
      (mkWorld f out (typed_title :: typed_description :: typed)
               clock k now rejects) =
    (Ret (Some (before ++ update_fields typed_title typed_description task :: after)),
     mkWorld f out' typed clock k now rejects).
Proof.
  intros Hb Ht. induction before as [|b before IH]; simpl in *.
  - rewrite Ht. eexists. reflexivity.
  - apply orb_false_elim in Hb as [Hb1 Hb2]. rewrite Hb1.
    destruct (IH Hb2) as (out' & E). unfold bind. rewrite E.
    exists out'. reflexivity.
Qed.

Lemma update_loop_file title' ts w :
  data_file (snd (update_loop title' ts w)) = data_file w.
Proof.
  induction ts as [|t ts IH]; simpl; [reflexivity|].
  destruct (has_title title' t).
  - unfold bind, input.
    destruct (stdin w) as [|l1 [|l2 typed]]; reflexivity.
  - unfold bind. destruct (update_loop title' ts w) as [[r|e] w1]; exact IH.
Qed.




Lemma mark_first_again title' ts ts' :
  mark_first title' ts = Some ts' -> mark_first title' ts' = Some ts'.
Proof.
  revert ts'. induction ts as [|t ts IH]; simpl; intros ts' H; [discriminate|].
  destruct (has_title title' t) eqn:E.
  - injection H as <-. simpl. rewrite has_title_mark_complete, E. reflexivity.
  - destruct (mark_first title' ts) as [ts1|]; [|discriminate].
    injection H as <-. simpl. rewrite E, (IH ts1 eq_refl). reflexivity.
Qed.

(** ** Completing a task *)

(** What [mark_task_complete] does with and without a match. *)
Lemma mark_task_complete_found title' self w ts :
  mark_first title' (tasks self) = Some ts ->
  mark_task_complete title' self w =
  (print_result (completed_message title') w,
   mkTaskManager ts (next_number self),
   print_world_line (completed_message title') (completed_line title' w) w).
Proof.
  intros H. unfold mark_task_complete.
  rewrite (mbind_run _ _ _ _ _ _ _ eq_refl). rewrite H.
  rewrite (mbind_run _ _ _ _ _ _ _ eq_refl).
  rewrite (mbind_run _ _ _ _ _ _ _ eq_refl).
  apply print_line_and_return.
Qed.

Lemma mark_task_complete_none title' self w :
  mark_first title' (tasks self) = None ->
  mark_task_complete title' self w =
  (print_result (not_found_message title') w, self,
   print_world (not_found_message title') w).
Proof.
  intros H. unfold mark_task_complete.
  rewrite (mbind_run _ _ _ _ _ _ _ eq_refl). rewrite H.
  apply print_and_return.
Qed.

(** C6: when some record has the title, [mark_task_complete] sets the status
    of the first such record to Complete and changes nothing else: the
    record keeps its [title], [description], [created] and [number], the
    records before and after it are the same, and so are length and order.
    So [add_task("A", "d")] on an empty store followed by
    [mark_task_complete("A")] leaves exactly one record, Complete, with the
    fields it was added with. *)
Theorem mark_task_complete_frame title' self w before task after :
  tasks self = before ++ task :: after ->
  existsb (has_title title') before = false ->
  has_title title' task = true ->
  (exists r w' task',
      mark_task_complete title' self w =
        (r, mkTaskManager (before ++ task' :: after) (next_number self), w') /\
      status task' = PStr "Complete" /\
      title task' = title task /\
      description task' = description task /\
      created task' = created task /\
      number task' = number task /\
      length (before ++ task' :: after) = length (tasks self)) /\
  (forall n w0,
      exists self1 w1 w2,
        add_task "A" "d" (mkTaskManager [] n) w0 = (Ret PNone, self1, w1) /\
        mark_task_complete "A" self1 w1 =
          (Ret PNone,
           mkTaskManager
             [mkTask (PStr "A") (PStr "d") (PStr "Complete")
                     (PStr (time w0 (ticks w0))) (PInt (n + 1))]
             (n + 1), w2)).
Proof.
  intros Hs Hb Ht. split.
  - rewrite (mark_task_complete_found title' self w
               (before ++ mark_complete task :: after))
      by (rewrite Hs; now apply mark_first_split).
    do 2 eexists. exists (mark_complete task). split; [reflexivity|].
    repeat split. rewrite Hs, !length_app. reflexivity.
  - intros n w0. rewrite add_task_run. cbn [tasks next_number app].
    rewrite (print_result_plain (added_message "A")) by reflexivity.
    do 3 eexists. split; [reflexivity|].
    rewrite (mark_task_complete_found "A" _ _
               [mkTask (PStr "A") (PStr "d") (PStr "Complete")
                       (PStr (time w0 (ticks w0))) (PInt (n + 1))])
      by reflexivity.
    rewrite (print_result_plain (completed_message "A")) by reflexivity.
    reflexivity.
Qed.

Lemma mark_task_complete_frame_witness :
  exists r w' task',
    mark_task_complete "B" example_store (example_world Missing []) =
      (r, mkTaskManager ([example_task "A" (PInt 1)] ++ task' ::
                         [example_task "B" (PInt 3)]) 3, w') /\
    status task' = PStr "Complete" /\
    title task' = PStr "B" /\
    description task' = PStr "d" /\
    created task' = PStr "2024-04-30 08:00:00" /\
    number task' = PInt 2 /\
    length ([example_task "A" (PInt 1)] ++ task' :: [example_task "B" (PInt 3)])
    = 3%nat.
Proof.
  exact (proj1 (mark_task_complete_frame "B" example_store
                  (example_world Missing [])
                  [example_task "A" (PInt 1)] (example_task "B" (PInt 2))
                  [example_task "B" (PInt 3)] eq_refl eq_refl eq_refl)).
Defined.

(** C10: [mark_task_complete] twice with the same title leaves the store as
    [mark_task_complete] once. *)
Theorem mark_task_complete_idempotent title' self w :
  exists r1 self1 w1 r2 w2,
    mark_task_complete title' self w = (r1, self1, w1) /\
    mark_task_complete title' self1 w1 = (r2, self1, w2).
Proof.
  destruct (mark_first title' (tasks self)) as [ts|] eqn:E.
  - rewrite (mark_task_complete_found _ _ _ _ E).
    do 5 eexists. split; [reflexivity|].
    rewrite (mark_task_complete_found title' _ _ ts);
      [reflexivity | exact (mark_first_again _ _ _ E)].
  - rewrite (mark_task_complete_none _ _ _ E).
    do 5 eexists. split; [reflexivity|].
    rewrite (mark_task_complete_none _ _ _ E). reflexivity.
Qed.

(** ** A title that is not found *)

(** What [delete_task] and [update_task] do, by what their loops find. *)
Lemma delete_task_found title' self w ts :
  delete_first title' (tasks self) = Some ts ->
  delete_task title' self w =
  (print_result (deleted_message title') w,
   mkTaskManager ts (next_number self),
   print_world (deleted_message title') w).
Proof.
  intros H. unfold delete_task.
  rewrite (mbind_run _ _ _ _ _ _ _ eq_refl). rewrite H.
  rewrite (mbind_run _ _ _ _ _ _ _ eq_refl).
  apply print_and_return.
Qed.

Lemma delete_task_none title' self w :
  delete_first title' (tasks self) = None ->
  delete_task title' self w =
  (print_result (not_found_message title') w, self,
   print_world (not_found_message title') w).
Proof.
  intros H. unfold delete_task.
  rewrite (mbind_run _ _ _ _ _ _ _ eq_refl). rewrite H.
  apply print_and_return.
Qed.

Lemma update_task_updated title' new_title new_description self w ts w1 :
  update_loop title' (tasks self) w = (Ret (Some ts), w1) ->
  update_task title' new_title new_description self w =
  (print_result (updated_message title') w1,
   mkTaskManager ts (next_number self),
   print_world (updated_message title') w1).
Proof.
  intros H. unfold update_task.
  rewrite (mbind_run _ _ _ _ _ _ _ eq_refl).
  rewrite (mbind_run _ _ _ _ _ _ _ (lift_run _ _ _ _ _ H)).
  rewrite (mbind_run _ _ _ _ _ _ _ eq_refl).
  apply print_and_return.
Qed.

Lemma update_task_none title' new_title new_description self w w1 :
  update_loop title' (tasks self) w = (Ret None, w1) ->
  update_task title' new_title new_description self w =
  (print_result (not_found_message title') w1, self,
   print_world (not_found_message title') w1).
Proof.
  intros H. unfold update_task.
  rewrite (mbind_run _ _ _ _ _ _ _ eq_refl).
  rewrite (mbind_run _ _ _ _ _ _ _ (lift_run _ _ _ _ _ H)).
  apply print_and_return.
Qed.

Lemma update_task_raised title' new_title new_description self w e w1 :
  update_loop title' (tasks self) w = (Raise e, w1) ->
  update_task title' new_title new_description self w = (Raise e, self, w1).
Proof.
  intros H. unfold update_task.
  rewrite (mbind_run _ _ _ _ _ _ _ eq_refl).
  unfold mbind. now rewrite (lift_run _ _ _ _ _ H).
Qed.







(** ** Updating a task *)

(** What [update_task] does with a match: it asks for the two values and
    assigns the ones that are not empty to the first task with the title. *)
Lemma update_task_typed title' new_title new_description self
    out typed_title typed_description typed clock k now rejects f
    before task after :
  tasks self = before ++ task :: after ->
  existsb (has_title title') before = false ->
  has_title title' task = true ->
  exists r w',
    update_task title' new_title new_description self
      (mkWorld f out (typed_title :: typed_description :: typed)
               clock k now rejects) =
    (r,
     mkTaskManager
       (before ++ update_fields typed_title typed_description task :: after)
       (next_number self), w') /\
    (r = Ret PNone \/ r = Raise MarkupError) /\
    (has_bracket (updated_message title') = false -> r = Ret PNone) /\
    data_file w' = f /\ stdin w' = typed.
Proof.
  intros Hs Hb Ht.
  destruct (update_loop_split title' before task after f out typed_title
              typed_description typed clock k now rejects Hb Ht) as (out' & E).
  rewrite <- Hs in E. rewrite (update_task_updated _ _ _ _ _ _ _ E).
  do 2 eexists. split; [reflexivity|].
  split; [apply print_result_cases|]. split; [apply print_result_plain|].
  unfold print_world, print_world_line.
  destruct (rejected _ _); split; reflexivity.
Qed.

(** C3 (failing input): [update_task("A", "B", "C")] on a store that holds a
    task titled A, with two empty lines typed at the prompts, leaves title
    and description as they were: the supplied values are never read. *)
Theorem update_task_ignores_supplied_values :
  exists w',
    update_task "A" (PStr "B") (PStr "C") example_store
                (example_world Missing [""; ""]) =
    (Ret PNone, example_store, w') /\
    map title (tasks example_store) = [PStr "A"; PStr "B"; PStr "B"] /\
    map description (tasks example_store) = [PStr "d"; PStr "d"; PStr "d"].
Proof. eexists. split; [reflexivity|]. split; reflexivity. Qed.

(** ** When the collection is persisted *)

Lemma clear_task_run self w :
  clear_task self w =
  (Ret PNone, mkTaskManager [] (next_number self), printed "Task list cleared!" w).
Proof. reflexivity. Qed.




Lemma update_task_file title' new_title new_description self w :
  data_file (snd (update_task title' new_title new_description self w))
  = data_file w.
Proof.
  pose proof (update_loop_file title' (tasks self) w) as H.
  destruct (update_loop title' (tasks self) w) as [[[ts|]|e] w1] eqn:E;
    cbn [snd] in H.
  - rewrite (update_task_updated _ _ _ _ _ _ _ E). cbn [snd].
    now rewrite print_world_file.
  - rewrite (update_task_none _ _ _ _ _ _ E). cbn [snd].
    now rewrite print_world_file.
  - now rewrite (update_task_raised _ _ _ _ _ _ _ E).
Qed.









(** ** The repair of the numbers *)

Lemma repair_condition n :
  negb (isinstance_int n) || is_None n = negb (isinstance_int n).
Proof. destruct n; reflexivity. Qed.

Lemma fix_missing_numbers_app next a b :
  fix_missing_numbers next (a ++ b) =
  (fst (fix_missing_numbers next a) ++
   fst (fix_missing_numbers (snd (fix_missing_numbers next a)) b),
   snd (fix_missing_numbers (snd (fix_missing_numbers next a)) b)).
Proof.
  revert next. induction a as [|t a IH]; intros next; simpl.
  - now destruct (fix_missing_numbers next b).
  - rewrite IH.
    destruct (fix_missing_numbers _ a) as [a' n1]. simpl.
    reflexivity.
Qed.

Lemma fix_missing_numbers_length next ts :
  length (fst (fix_missing_numbers next ts)) = length ts.
Proof.
  revert next. induction ts as [|t ts IH]; intros next; simpl; [reflexivity|].
  specialize (IH (Z.max next
    (int_of (number (if negb (isinstance_int (number t)) || is_None (number t)
                     then set_number t (PInt next) else t)) + 1))).
  destruct (fix_missing_numbers _ ts). simpl in *. now rewrite IH.
Qed.

Lemma fix_missing_numbers_last next ts :
  snd (fix_missing_numbers next ts) =
  next_after next (fst (fix_missing_numbers next ts)).
Proof.
  revert next. induction ts as [|t ts IH]; intros next; simpl; [reflexivity|].
  match goal with |- context [fix_missing_numbers ?n ts] =>
    specialize (IH n); destruct (fix_missing_numbers n ts) end.
  simpl in *. exact IH.
Qed.

Lemma fix_missing_numbers_int next ts :
  Forall (fun t => isinstance_int (number t) = true)
         (fst (fix_missing_numbers next ts)).
Proof.
  revert next. induction ts as [|t ts IH]; intros next; simpl; [constructor|].
  match goal with |- context [fix_missing_numbers ?n ts] =>
    specialize (IH n); destruct (fix_missing_numbers n ts) end.
  simpl in *. constructor; [|exact IH].
  rewrite repair_condition.
  destruct (isinstance_int (number t)) eqn:E; simpl; auto.
Qed.

Lemma fix_missing_numbers_kept next ts :
  Forall (fun t => isinstance_int (number t) = true) ts ->
  fix_missing_numbers next ts = (ts, next_after next ts).
Proof.
  intros H. revert next. induction H as [|t ts Ht _ IH]; intros next; simpl.
  - reflexivity.
  - rewrite repair_condition, Ht. simpl. now rewrite IH.
Qed.

Lemma next_after_ge next ts : next <= next_after next ts.
Proof.
  revert next. induction ts as [|t ts IH]; intros next; simpl; [lia|].
  etransitivity; [|apply IH]. lia.
Qed.

Lemma next_after_above next ts :
  Forall (fun z => z < next_after next ts) (numbers ts).
Proof.
  revert next. induction ts as [|t ts IH]; intros next; simpl; constructor.
  - pose proof (next_after_ge (Z.max next (int_of (number t) + 1)) ts). lia.
  - apply IH.
Qed.

Lemma fix_missing_numbers_renumbered next ts :
  Forall (fun t => isinstance_int (number t) = false) ts ->
  fix_missing_numbers next ts =
  (renumber next ts, next + Z.of_nat (length ts)).
Proof.
  intros H. revert next. induction H as [|t ts Ht _ IH]; intros next.
  - simpl. now rewrite Z.add_0_r.
  - cbn [fix_missing_numbers]. rewrite repair_condition, Ht. cbn [negb].
    replace (Z.max next (int_of (number (set_number t (PInt next))) + 1))
      with (next + 1)
      by (unfold int_of; cbn [number set_number as_int]; lia).
    rewrite IH. cbn [renumber length]. f_equal. lia.
Qed.

Lemma numbers_renumber first ts :
  numbers (renumber first ts) = count_from first (length ts).
Proof.
  revert first. induction ts as [|t ts IH]; intros first; simpl; [reflexivity|].
  f_equal. apply IH.
Qed.

Lemma NoDup_app_lt (a b : list Z) bound :
  NoDup a -> NoDup b ->
  Forall (fun z => z < bound) a -> Forall (fun z => bound <= z) b ->
  NoDup (a ++ b).
Proof.
  intros Ha Hb Hlt Hge. induction Ha as [|z a Hz Ha IH]; simpl; [exact Hb|].
  inversion Hlt; subst. constructor; [|auto].
  intros Hin. apply in_app_or in Hin as [Hin|Hin]; [contradiction|].
  rewrite Forall_forall in Hge. specialize (Hge _ Hin). lia.
Qed.

(** [TaskManager.__init__] on a data file that holds a list from which the
    tasks can be built: the store holds the repaired tasks and the counter is
    the last number given or seen; the repaired tasks are in the file. *)
Lemma TaskManager_init_run w ts docs built w1 :
  data_file w = Text ts ->
  json_loads ts = Some (PList docs) ->
  Tasks_of_docs docs w = (Ret built, w1) ->
  exists w',
    TaskManager_init w =
      (Ret (mkTaskManager (fst (fix_missing_numbers 1 built))
                          (snd (fix_missing_numbers 1 built) - 1)), w') /\
    data_file w' =
      Text (json_dumps (tasks_doc (fst (fix_missing_numbers 1 built)))).
Proof.
  intros Hf Hl Hb. unfold TaskManager_init.
  unfold bind at 1. rewrite (load_tasks_parsed _ _ _ Hf Hl).
  unfold bind at 1. cbn [py_iter ret].
  unfold bind at 1. rewrite Hb.
  destruct (fix_missing_numbers 1 built) as [ts' last].
  eexists. split; reflexivity.
Qed.

(** C1 (counterexample): the data file holds a task without a number
    followed by a task with the number 1.  [TaskManager.__init__] gives the
    first task the number 1, not the next value after the maximum of the
    file, and the two tasks end with the same number. *)
Lemma TaskManager_init_duplicate_numbers :
  json_loads text_missing_then_one =
    Some (PList [PDict [("title", PStr "a"); ("description", PStr "d")];
                 PDict [("title", PStr "b"); ("description", PStr "d");
                        ("number", PInt 1)]]) /\
  exists self w',
    TaskManager_init (example_world (Text text_missing_then_one) []) =
      (Ret self, w') /\
    map number (tasks self) = [PInt 1; PInt 1] /\
    ~ NoDup (numbers (tasks self)).
Proof.
  split; [reflexivity|].
  do 2 eexists. split; [reflexivity|]. split; [reflexivity|].
  intros H. inversion H as [|z l Hin _]; subst. apply Hin. now left.
Qed.

(** C1 (amended): after the repair pass every record has an integer number.
    A number loaded as an integer is kept.  A record whose number is missing
    or no integer gets the value of [next_number] at its place in the file:
    the larger of 1 and one more than the greatest number of the records
    before it (not of the whole file), which is above all of these.  When the
    records with integer numbers come first in the file and their numbers
    are pairwise different, the other records continue from their maximum
    and all numbers are unique. *)
Theorem fix_missing_numbers_repairs (ints missing : list Task) :
  Forall (fun t => isinstance_int (number t) = true) ints ->
  NoDup (numbers ints) ->
  Forall (fun t => isinstance_int (number t) = false) missing ->
  (forall before task after,
      exists before' task' after' last,
        fix_missing_numbers 1 (before ++ task :: after) =
          (before' ++ task' :: after', last) /\
        before' = fst (fix_missing_numbers 1 before) /\
        length after' = length after /\
        Forall (fun t => isinstance_int (number t) = true)
               (before' ++ task' :: after') /\
        (isinstance_int (number task) = true -> task' = task) /\
        (isinstance_int (number task) = false ->
         task' = set_number task (PInt (next_after 1 before')) /\
         1 <= next_after 1 before' /\
         Forall (fun z => z < next_after 1 before') (numbers before'))) /\
  fst (fix_missing_numbers 1 (ints ++ missing)) =
    ints ++ renumber (next_after 1 ints) missing /\
  numbers (renumber (next_after 1 ints) missing) =
    count_from (next_after 1 ints) (length missing) /\
  NoDup (numbers (fst (fix_missing_numbers 1 (ints ++ missing)))).
Proof.
  intros Hints Hnodup Hmissing. split; [|split; [|split]].
  - intros before task after.
    pose proof (fix_missing_numbers_int 1 (before ++ task :: after)) as Hint.
    rewrite fix_missing_numbers_app in *. cbn [fst] in Hint.
    rewrite fix_missing_numbers_last in *.
    set (before' := fst (fix_missing_numbers 1 before)) in *.
    cbn [fix_missing_numbers] in *. rewrite repair_condition in *.
    match goal with |- context [fix_missing_numbers ?n after] =>
      pose proof (fix_missing_numbers_length n after) as Hlen;
      destruct (fix_missing_numbers n after) as [after' last] end.
    cbn [fst snd] in *.
    do 4 eexists. split; [reflexivity|].
    split; [reflexivity|]. split; [exact Hlen|]. split; [exact Hint|].
    split; intros E; rewrite E; cbn [negb]; [reflexivity|].
    split; [reflexivity|]. split; [apply next_after_ge | apply next_after_above].
  - rewrite fix_missing_numbers_app, (fix_missing_numbers_kept _ _ Hints).
    cbn [fst snd]. now rewrite (fix_missing_numbers_renumbered _ _ Hmissing).
  - apply numbers_renumber.
  - rewrite fix_missing_numbers_app, (fix_missing_numbers_kept _ _ Hints).
    cbn [fst snd]. rewrite (fix_missing_numbers_renumbered _ _ Hmissing).
    cbn [fst]. unfold numbers at 1. rewrite map_app. fold (numbers ints).
    fold (numbers (renumber (next_after 1 ints) missing)).
    rewrite numbers_renumber.
    apply NoDup_app_lt with (bound := next_after 1 ints).
    + exact Hnodup.
    + apply sorted_lt_NoDup, count_from_sorted.
    + apply next_after_above.
    + apply count_from_lower.
Qed.

Lemma fix_missing_numbers_repairs_witness :
  fst (fix_missing_numbers 1
         ([example_task "A" (PInt 4); example_task "B" (PBool true)] ++
          [example_task "C" PNone; example_task "D" (PStr "7")])) =
    [example_task "A" (PInt 4); example_task "B" (PBool true)] ++
    renumber 5 [example_task "C" PNone; example_task "D" (PStr "7")] /\
  numbers (renumber 5 [example_task "C" PNone; example_task "D" (PStr "7")]) =
    [5; 6] /\
  NoDup [4; 1; 5; 6].
Proof.
  refine (proj2 (fix_missing_numbers_repairs
                   [example_task "A" (PInt 4); example_task "B" (PBool true)]
                   [example_task "C" PNone; example_task "D" (PStr "7")]
                   _ _ _)).
  - repeat constructor.
  - repeat constructor; simpl; intuition discriminate.
  - repeat constructor.
Defined.

(** * Further properties of the store *)

(** ** Deleting and updating *)

(** X1: [delete_task] with a match removes the first task with the title and
    nothing else: the tasks before and after it stay, in order, and so does
    the counter; the data file is not touched.  The message is printed after
    the removal: [delete_task] returns [None] with the message printed, or,
    when the console rejects the message, raises [MarkupError] with nothing
    printed. *)
Theorem delete_task_removes_first title' self w before task after :
  tasks self = before ++ task :: after ->
  existsb (has_title title') before = false ->
  has_title title' task = true ->
  exists r w',
    delete_task title' self w =
      (r, mkTaskManager (before ++ after) (next_number self), w') /\
    data_file w' = data_file w /\
    (rejected (deleted_message title') w = false ->
     r = Ret PNone /\ w' = printed (deleted_message title') w) /\
    (rejected (deleted_message title') w = true ->
     r = Raise MarkupError /\ w' = w).
Proof.
  intros Hs Hb Ht.
  rewrite (delete_task_found title' self w (before ++ after))
    by (rewrite Hs; now apply delete_first_split).
  do 2 eexists. split; [reflexivity|]. split; [apply print_world_file|].
  unfold print_result, print_world, print_world_line.
  destruct (rejected (deleted_message title') w); split; intros; try discriminate;
    split; reflexivity.
Qed.

Lemma delete_task_removes_first_witness :
  exists r w',
    delete_task "B" example_store (example_world Missing []) =
      (r, mkTaskManager ([example_task "A" (PInt 1)] ++
                         [example_task "B" (PInt 3)]) 3, w') /\
    data_file w' = Missing /\
    (rejected (deleted_message "B") (example_world Missing []) = false ->
     r = Ret PNone /\
     w' = printed (deleted_message "B") (example_world Missing [])) /\
    (rejected (deleted_message "B") (example_world Missing []) = true ->
     r = Raise MarkupError /\ w' = example_world Missing []).
Proof.
  exact (delete_task_removes_first "B" example_store (example_world Missing [])
           [example_task "A" (PInt 1)] (example_task "B" (PInt 2))
           [example_task "B" (PInt 3)] eq_refl eq_refl eq_refl).
Defined.

(** X2: [update_task] with a match reads two lines and changes the first task
    with the title only: its title becomes the first line and its description
    the second, each kept when the line is empty; status, creation time and
    number stay, and so do the other tasks, the counter and the data file. *)
Theorem update_task_changes_first_match title' new_title new_description self
    out line1 line2 typed clock k now rejects f before task after :
  tasks self = before ++ task :: after ->
  existsb (has_title title') before = false ->
  has_title title' task = true ->
  exists task' r w',
    update_task title' new_title new_description self
      (mkWorld f out (line1 :: line2 :: typed) clock k now rejects) =
    (r, mkTaskManager (before ++ task' :: after) (next_number self), w') /\
    title task' = (if String.eqb line1 "" then title task else PStr line1) /\
    description task' =
      (if String.eqb line2 "" then description task else PStr line2) /\
    status task' = status task /\
    created task' = created task /\
    number task' = number task /\
    data_file w' = f /\ stdin w' = typed /\
    (r = Ret PNone \/ r = Raise MarkupError) /\
    (has_bracket (updated_message title') = false -> r = Ret PNone).
Proof.
  intros Hs Hb Ht.
  destruct (update_task_typed title' new_title new_description self out line1
              line2 typed clock k now rejects f before task after Hs Hb Ht)
    as (r & w' & E & Hr & Hp & Hf & Hi).
  exists (update_fields line1 line2 task), r, w'.
  split; [exact E|]. unfold update_fields.
  destruct (String.eqb line1 ""), (String.eqb line2 ""); simpl; auto 12.
Qed.

Lemma update_task_changes_first_match_witness :
  exists task' r w',
    update_task "B" PNone PNone example_store
      (example_world Missing ["C"; ""]) =
    (r, mkTaskManager ([example_task "A" (PInt 1)] ++ task' ::
                       [example_task "B" (PInt 3)]) 3, w') /\
    title task' = PStr "C" /\
    description task' = PStr "d" /\
    status task' = PStr "Incomplete" /\
    created task' = PStr "2024-04-30 08:00:00" /\
    number task' = PInt 2 /\
    data_file w' = Missing /\ stdin w' = [] /\
    (r = Ret PNone \/ r = Raise MarkupError) /\
    (has_bracket (updated_message "B") = false -> r = Ret PNone).
Proof.
  exact (update_task_changes_first_match "B" PNone PNone example_store
           [] "C" "" [] _ 0%nat _ _ Missing
           [example_task "A" (PInt 1)] (example_task "B" (PInt 2))
           [example_task "B" (PInt 3)] eq_refl eq_refl eq_refl).
Defined.

Lemma update_loop_eof title' before task after w :
  existsb (has_title title') before = false ->
  has_title title' task = true ->
  (length (stdin w) < 2)%nat ->
  fst (update_loop title' (before ++ task :: after) w) = Raise EOFError.
Proof.
  intros Hb Ht Hl. induction before as [|b before IH]; simpl in *.
  - rewrite Ht. unfold bind, input.
    destruct (stdin w) as [|l1 [|l2 typed]]; simpl in *; try reflexivity; lia.
  - apply orb_false_elim in Hb as [Hb1 Hb2]. rewrite Hb1.
    specialize (IH Hb2). unfold bind.
    destruct (update_loop title' (before ++ task :: after) w) as [[r|e] w1];
      simpl in *; congruence.
Qed.

(** X3: [update_task] with a match and fewer than two lines left to read
    raises [EOFError]; the store and the data file are not touched. *)
Theorem update_task_end_of_input title' new_title new_description self w
    before task after :
  tasks self = before ++ task :: after ->
  existsb (has_title title') before = false ->
  has_title title' task = true ->
  (length (stdin w) < 2)%nat ->
  fst (fst (update_task title' new_title new_description self w))
  = Raise EOFError /\
  snd (fst (update_task title' new_title new_description self w)) = self /\
  data_file (snd (update_task title' new_title new_description self w))
  = data_file w.
Proof.
  intros Hs Hb Ht Hl. split; [|split; [|apply update_task_file]];
    pose proof (update_loop_eof title' before task after w Hb Ht Hl) as H;
    rewrite <- Hs in H;
    destruct (update_loop title' (tasks self) w) as [[r|e] w1] eqn:E;
    cbn [fst] in H; try discriminate; injection H as ->;
    now rewrite (update_task_raised _ _ _ _ _ _ _ E).
Qed.

Lemma update_task_end_of_input_witness :
  fst (fst (update_task "B" PNone PNone example_store
              (example_world Missing ["C"])))
  = Raise EOFError /\
  snd (fst (update_task "B" PNone PNone example_store
              (example_world Missing ["C"]))) = example_store /\
  data_file (snd (update_task "B" PNone PNone example_store
                    (example_world Missing ["C"]))) = Missing.
Proof.
  apply (update_task_end_of_input "B" PNone PNone example_store
           (example_world Missing ["C"])
           [example_task "A" (PInt 1)] (example_task "B" (PInt 2))
           [example_task "B" (PInt 3)] eq_refl eq_refl eq_refl).
  simpl. lia.
Defined.

(** ** The numbers and the counter *)

Lemma numbers_of_map_number ts ts' :
  map number ts' = map number ts -> numbers ts' = numbers ts.
Proof.
  intros H. unfold numbers.
  rewrite <- (map_map number int_of ts'), <- (map_map number int_of ts).
  now rewrite H.
Qed.

Lemma int_numbers_of_map_number ts ts' :
  map number ts' = map number ts ->
  Forall (fun t => isinstance_int (number t) = true) ts ->
  Forall (fun t => isinstance_int (number t) = true) ts'.
Proof.
  intros H Hf.
  apply (Forall_map number (fun n => isinstance_int n = true)).
  rewrite H. now apply Forall_map.
Qed.

Lemma mark_first_numbers title' ts ts' :
  mark_first title' ts = Some ts' -> map number ts' = map number ts.
Proof.
  revert ts'. induction ts as [|t ts IH]; simpl; intros ts' H; [discriminate|].
  destruct (has_title title' t).
  - now injection H as <-.
  - destruct (mark_first title' ts) as [ts1|]; [|discriminate].
    injection H as <-. simpl. now rewrite (IH ts1 eq_refl).
Qed.

Lemma update_loop_numbers title' ts w ts' w' :
  update_loop title' ts w = (Ret (Some ts'), w') ->
  map number ts' = map number ts.
Proof.
  revert ts' w'.
  induction ts as [|t ts IH]; simpl; intros ts' w' H; [discriminate|].
  destruct (has_title title' t).
  - unfold bind, input in H.
    destruct (stdin w) as [|l1 [|l2 typed]]; try discriminate.
    cbn in H. injection H as <- _. unfold update_fields.
    destruct (String.eqb l1 ""), (String.eqb l2 ""); reflexivity.
  - unfold bind in H.
    destruct (update_loop title' ts w) as [[[ts1|]|e] w1]; try discriminate;
      cbn in H; injection H as <- _.
    simpl. now rewrite (IH ts1 w1 eq_refl).
Qed.

Lemma delete_first_found title' ts ts' :
  delete_first title' ts = Some ts' ->
  exists before task after, ts = before ++ task :: after /\ ts' = before ++ after.
Proof.
  revert ts'. induction ts as [|t ts IH]; simpl; intros ts' H; [discriminate|].
  destruct (has_title title' t).
  - injection H as <-. now exists [], t, ts.
  - destruct (delete_first title' ts) as [ts1|]; [|discriminate].
    injection H as <-.
    destruct (IH ts1 eq_refl) as (b & x & a & -> & ->).
    now exists (t :: b), x, a.
Qed.

Lemma numbered_same_numbers self ts :
  map number ts = map number (tasks self) ->
  numbered self -> numbered (mkTaskManager ts (next_number self)).
Proof.
  intros H (Hi & Hn & Hc). unfold numbered. cbn [tasks next_number].
  rewrite (numbers_of_map_number _ _ H).
  split; [|split]; auto. now apply (int_numbers_of_map_number _ _ H).
Qed.

Lemma numbered_remove self before task after :
  tasks self = before ++ task :: after ->
  numbered self -> numbered (mkTaskManager (before ++ after) (next_number self)).
Proof.
  intros Hs (Hi & Hn & Hc). unfold numbered, numbers in *.
  rewrite Hs in *. cbn [tasks next_number].
  rewrite map_app in *. cbn [map] in *.
  apply Forall_app in Hi as [Hi1 Hi2]. apply Forall_app in Hc as [Hc1 Hc2].
  inversion Hi2; subst. inversion Hc2; subst.
  split; [|split].
  - apply Forall_app. auto.
  - eapply NoDup_remove_1. exact Hn.
  - apply Forall_app. auto.
Qed.

(** X4: The store keeps its numbers in order: when they are integers, pairwise
    different and not above the counter, they are so after every method,
    whether it returns or raises.  [add_task] gives the new task the number
    after the counter, which no task of the store has. *)
Theorem methods_keep_numbered self :
  numbered self ->
  (forall title' description' w,
      exists r self' w',
        add_task title' description' self w = (r, self', w') /\
        numbered self' /\
        ~ In (next_number self + 1) (numbers (tasks self))) /\
  (forall title' w,
      exists r self' w',
        mark_task_complete title' self w = (r, self', w') /\
        numbered self') /\
  (forall title' w,
      exists r self' w',
        delete_task title' self w = (r, self', w') /\
        numbered self') /\
  (forall w,
      exists r self' w',
        clear_task self w = (r, self', w') /\ numbered self') /\
  (forall title' new_title new_description w,
      exists r self' w',
        update_task title' new_title new_description self w = (r, self', w') /\
        numbered self').
Proof.
  intros Hnum. pose proof Hnum as (Hi & Hn & Hc).
  assert (Hfresh : ~ In (next_number self + 1) (numbers (tasks self))).
  { intros Hin. rewrite Forall_forall in Hc. specialize (Hc _ Hin). lia. }
  assert (Hself : numbered (mkTaskManager (tasks self) (next_number self)))
    by (now destruct self).
  split; [|split; [|split; [|split]]].
  - intros. rewrite add_task_run. do 3 eexists. split; [reflexivity|].
    split; [|exact Hfresh].
    unfold numbered, numbers in *. cbn [tasks next_number].
    rewrite map_app. cbn [map number]. split; [|split].
    + apply Forall_app. split; [exact Hi | repeat constructor].
    + apply NoDup_app_lt with (bound := next_number self + 1).
      * exact Hn.
      * repeat constructor. simpl. tauto.
      * eapply Forall_impl; [|exact Hc]. simpl. intros; lia.
      * repeat constructor. unfold int_of. simpl. lia.
    + apply Forall_app. split.
      * eapply Forall_impl; [|exact Hc]. simpl. intros; lia.
      * repeat constructor. unfold int_of. simpl. lia.
  - intros.
    destruct (mark_first title' (tasks self)) as [ts|] eqn:E;
      [rewrite (mark_task_complete_found _ _ _ _ E)
      |rewrite (mark_task_complete_none _ _ _ E)];
      do 3 eexists; (split; [reflexivity|]); [|exact Hnum].
    apply numbered_same_numbers; [|exact Hnum].
    now apply mark_first_numbers with (title' := title').
  - intros.
    destruct (delete_first title' (tasks self)) as [ts|] eqn:E;
      [rewrite (delete_task_found _ _ _ _ E)
      |rewrite (delete_task_none _ _ _ E)];
      do 3 eexists; (split; [reflexivity|]); [|exact Hnum].
    destruct (delete_first_found _ _ _ E) as (b & x & a & Hs & ->).
    now apply numbered_remove with (task := x).
  - intros. rewrite clear_task_run. do 3 eexists. split; [reflexivity|].
    unfold numbered. cbn. repeat split; constructor.
  - intros title' new_title new_description w.
    destruct (update_loop title' (tasks self) w) as [[[ts|]|e] w1] eqn:E;
      [rewrite (update_task_updated _ _ _ _ _ _ _ E)
      |rewrite (update_task_none _ _ _ _ _ _ E)
      |rewrite (update_task_raised _ _ _ _ _ _ _ E)];
      do 3 eexists; (split; [reflexivity|]); try exact Hnum.
    apply numbered_same_numbers; [|exact Hnum].
    now apply update_loop_numbers with (title' := title') (w := w) (w' := w1).
Qed.

Lemma methods_keep_numbered_witness :
  numbered example_store /\
  exists r self' w',
    add_task "E" "d" example_store (example_world Missing []) = (r, self', w') /\
    numbered self' /\
    ~ In 4 (numbers (tasks example_store)).
Proof.
  assert (H : numbered example_store).
  { unfold numbered. cbn. repeat split; repeat constructor;
      simpl; try lia; intuition discriminate. }
  split; [exact H|].
  exact (proj1 (methods_keep_numbered example_store H) "E" "d"
           (example_world Missing [])).
Defined.

(** ** Building the tasks at start *)

Lemma same_but_clock_refl w : same_but_clock w w.
Proof. unfold same_but_clock. repeat split; lia. Qed.

Lemma same_but_clock_trans w1 w2 w3 :
  same_but_clock w1 w2 -> same_but_clock w2 w3 -> same_but_clock w1 w3.
Proof.
  unfold same_but_clock. intros (A1 & A2 & A3 & A4 & A5 & A6 & A7)
                                (B1 & B2 & B3 & B4 & B5 & B6 & B7).
  repeat split; try congruence. lia.
Qed.

Lemma Task_init_run t d s c n w :
  exists w',
    Task_init t d s c n w =
      (Ret (mkTask t d s (if truthy c then c else PStr (time w (ticks w))) n), w') /\
    same_but_clock w w'.
Proof.
  unfold Task_init, bind. destruct (truthy c); cbn.
  - eexists. split; [reflexivity | apply same_but_clock_refl].
  - eexists. split; [reflexivity|]. unfold same_but_clock. cbn.
    repeat split; lia.
Qed.

Lemma Task_of_doc_valid doc w :
  valid_doc doc = true ->
  exists t w', Task_of_doc doc w = (Ret t, w') /\ same_but_clock w w' /\
               exists d, doc = PDict d /\
                         dict_get "title" d = Some (title t) /\
                         dict_get "description" d = Some (description t).
Proof.
  destruct doc as [ | | | | | |d]; try discriminate. cbn [valid_doc Task_of_doc].
  intros H. apply andb_prop in H as [Hk Hf]. rewrite Hk.
  destruct (dict_get "title" d) as [t|] eqn:Et; [|discriminate].
  destruct (dict_get "description" d) as [de|] eqn:Ed; [|discriminate].
  match goal with |- context [Task_init ?a ?b ?c ?e ?f w] =>
    destruct (Task_init_run a b c e f w) as (w' & E & Hw) end.
  rewrite E. do 2 eexists. split; [reflexivity|]. split; [exact Hw|].
  exists d. cbn [title description]. auto.
Qed.

Lemma Task_of_doc_invalid doc w :
  valid_doc doc = false -> Task_of_doc doc w = (Raise TypeError, w).
Proof.
  destruct doc as [ | | | | | |d]; try reflexivity. cbn [valid_doc Task_of_doc].
  destruct (forallb _ d); [|reflexivity]. cbn [andb].
  destruct (dict_get "title" d) as [t|]; [|reflexivity].
  destruct (dict_get "description" d) as [de|]; [discriminate | reflexivity].
Qed.

Lemma Tasks_of_docs_valid docs : forall w,
  forallb valid_doc docs = true ->
  exists built w', Tasks_of_docs docs w = (Ret built, w') /\
                   same_but_clock w w' /\ length built = length docs.
Proof.
  induction docs as [|doc docs IH]; intros w H; cbn [Tasks_of_docs].
  - exists [], w. split; [reflexivity|]. split; [apply same_but_clock_refl | reflexivity].
  - cbn in H. apply andb_prop in H as [H1 H2].
    destruct (Task_of_doc_valid doc w H1) as (t & w1 & E1 & Hw1 & _).
    destruct (IH w1 H2) as (built & w2 & E2 & Hw2 & Hl).
    rewrite (bind_run _ _ _ _ _ E1), (bind_run _ _ _ _ _ E2).
    exists (t :: built), w2. split; [reflexivity|].
    split; [eapply same_but_clock_trans; eassumption | simpl; now rewrite Hl].
Qed.

Lemma Tasks_of_docs_invalid docs : forall w,
  forallb valid_doc docs = false ->
  exists w', Tasks_of_docs docs w = (Raise TypeError, w') /\ same_but_clock w w'.
Proof.
  induction docs as [|doc docs IH]; intros w H; cbn [Tasks_of_docs].
  - discriminate.
  - cbn in H. destruct (valid_doc doc) eqn:Hd.
    + destruct (Task_of_doc_valid doc w Hd) as (t & w1 & E1 & Hw1 & _).
      destruct (IH w1 H) as (w2 & E2 & Hw2).
      rewrite (bind_run _ _ _ _ _ E1). unfold bind. rewrite E2.
      exists w2. split; [reflexivity|]. eapply same_but_clock_trans; eassumption.
    + unfold bind. rewrite (Task_of_doc_invalid _ _ Hd).
      exists w. split; [reflexivity | apply same_but_clock_refl].
Qed.

(** What [py_iter] gives for a loadable value, and that it raises for any
    other value after which a task would have to be built. *)
Lemma loadable_docs v w :
  loadable v = true ->
  exists docs, py_iter v w = (Ret docs, w) /\ forallb valid_doc docs = true.
Proof.
  destruct v as [ | | | |s|l|[|kv d]]; try discriminate; cbn.
  - intros H. apply String.eqb_eq in H as ->. now exists [].
  - intros H. now exists l.
  - intros _. now exists [].
Qed.

Lemma not_loadable_docs v w :
  loadable v = false ->
  py_iter v w = (Raise TypeError, w) \/
  exists docs, py_iter v w = (Ret docs, w) /\ forallb valid_doc docs = false.
Proof.
  destruct v as [ |b|z|lit|s|l|[|[k x] d]]; try discriminate; cbn; auto.
  - intros H. right. eexists. split; [reflexivity|].
    destruct s as [|c s]; [discriminate | reflexivity].
  - intros H. right. now exists l.
  - intros _. right. eexists. split; reflexivity.
Qed.

Lemma TaskManager_init_built w v w1 docs built w2 :
  load_tasks w = (Ret v, w1) ->
  py_iter v w1 = (Ret docs, w1) ->
  Tasks_of_docs docs w1 = (Ret built, w2) ->
  exists w',
    TaskManager_init w =
      (Ret (mkTaskManager (fst (fix_missing_numbers 1 built))
                          (snd (fix_missing_numbers 1 built) - 1)), w') /\
    data_file w' =
      Text (json_dumps (tasks_doc (fst (fix_missing_numbers 1 built)))) /\
    console w' = console w2 /\ stdin w' = stdin w2 /\ ticks w' = ticks w2 /\
    time w' = time w2 /\ current_time w' = current_time w2 /\
    markup_error w' = markup_error w2.
Proof.
  intros Hl Hi Hb. unfold TaskManager_init.
  rewrite (bind_run _ _ _ _ _ Hl), (bind_run _ _ _ _ _ Hi), (bind_run _ _ _ _ _ Hb).
  destruct (fix_missing_numbers 1 built) as [ts' last].
  eexists. split; [reflexivity|]. cbn. repeat split.
Qed.

Lemma TaskManager_init_inv w self w' :
  TaskManager_init w = (Ret self, w') ->
  exists built,
    self = mkTaskManager (fst (fix_missing_numbers 1 built))
                         (snd (fix_missing_numbers 1 built) - 1) /\
    data_file w' = Text (json_dumps (tasks_doc (tasks self))).
Proof.
  unfold TaskManager_init, bind. intros H.
  destruct (load_tasks w) as [[v|e] w1]; [|discriminate].
  destruct (py_iter v w1) as [[docs|e] w2]; [|discriminate].
  destruct (Tasks_of_docs docs w2) as [[built|e] w3]; [|discriminate].
  exists built. destruct (fix_missing_numbers 1 built) as [ts' last].
  cbn in H. injection H as <- <-. split; reflexivity.
Qed.

Lemma next_after_tight next ts :
  next_after next ts = next \/ In (next_after next ts - 1) (numbers ts).
Proof.
  revert next. induction ts as [|t ts IH]; intros next; [now left|].
  cbn [numbers map]. fold (numbers ts).
  change (next_after next (t :: ts))
    with (next_after (Z.max next (int_of (number t) + 1)) ts).
  destruct (IH (Z.max next (int_of (number t) + 1))) as [E|Hin].
  - rewrite E. destruct (Z.max_spec next (int_of (number t) + 1)) as [[_ ->]|[_ ->]].
    + right. left. lia.
    + now left.
  - right. now right.
Qed.

(** X5: When [TaskManager.__init__] returns, every task has an integer number,
    the counter is the greatest of these numbers, or 0 when none is
    positive, and the data file holds the tasks of the store. *)
Theorem TaskManager_init_counter w self w' :
  TaskManager_init w = (Ret self, w') ->
  Forall (fun t => isinstance_int (number t) = true) (tasks self) /\
  Forall (fun z => z <= next_number self) (numbers (tasks self)) /\
  0 <= next_number self /\
  (next_number self = 0 \/ In (next_number self) (numbers (tasks self))) /\
  data_file w' = Text (json_dumps (tasks_doc (tasks self))).
Proof.
  intros H. destruct (TaskManager_init_inv _ _ _ H) as (built & -> & Hf).
  cbn [tasks next_number] in *. rewrite fix_missing_numbers_last.
  set (ts := fst (fix_missing_numbers 1 built)) in *.
  split; [apply fix_missing_numbers_int|].
  split; [|split; [|split; [|exact Hf]]].
  - eapply Forall_impl; [|apply (next_after_above 1 ts)]. simpl. intros; lia.
  - pose proof (next_after_ge 1 ts). lia.
  - destruct (next_after_tight 1 ts) as [->|Hin]; [now left | now right].
Qed.

Lemma TaskManager_init_counter_witness :
  exists self w',
    TaskManager_init (example_world (Text text_missing_then_one) []) = (Ret self, w') /\
    Forall (fun z => z <= next_number self) (numbers (tasks self)) /\
    (next_number self = 0 \/ In (next_number self) (numbers (tasks self))).
Proof.
  do 2 eexists. split; [reflexivity|].
  pose proof (TaskManager_init_counter
                (example_world (Text text_missing_then_one) []) _ _ eq_refl)
    as (_ & H1 & _ & H2 & _).
  split; assumption.
Defined.

(** X6: Where [TaskManager.__init__] returns and where it raises, for a data file
    that parses: it returns for a list of documents [Task] can be built from
    (and for an empty object or an empty string), with the tasks saved to the
    file; for any other value it raises [TypeError] and leaves the file. *)
Theorem TaskManager_init_accepts w ts v :
  data_file w = Text ts ->
  json_loads ts = Some v ->
  if loadable v
  then exists self w',
         TaskManager_init w = (Ret self, w') /\
         data_file w' = Text (json_dumps (tasks_doc (tasks self)))
  else exists w',
         TaskManager_init w = (Raise TypeError, w') /\ data_file w' = Text ts.
Proof.
  intros Hf Hl. pose proof (load_tasks_parsed _ _ _ Hf Hl) as Hload.
  destruct (loadable v) eqn:E.
  - destruct (loadable_docs v w E) as (docs & Hi & Hd).
    destruct (Tasks_of_docs_valid docs w Hd) as (built & w2 & Hb & _).
    destruct (TaskManager_init_built _ _ _ _ _ _ Hload Hi Hb) as (w' & Hr & Hw & _).
    do 2 eexists. split; [exact Hr | exact Hw].
  - unfold TaskManager_init. rewrite (bind_run _ _ _ _ _ Hload).
    destruct (not_loadable_docs v w E) as [Hi|(docs & Hi & Hd)].
    + unfold bind. rewrite Hi. exists w. split; [reflexivity | exact Hf].
    + rewrite (bind_run _ _ _ _ _ Hi).
      destruct (Tasks_of_docs_invalid docs w Hd) as (w2 & Hb & Hw).
      unfold bind. rewrite Hb. exists w2. split; [reflexivity|].
      destruct Hw as (Hw & _). now rewrite Hw.
Qed.

Lemma TaskManager_init_accepts_witness :
  exists w',
    TaskManager_init (example_world (Text text_of_number) []) =
      (Raise TypeError, w') /\
    data_file w' = Text text_of_number.
Proof.
  exact (TaskManager_init_accepts (example_world (Text text_of_number) [])
           text_of_number (PList [PInt 1]) eq_refl eq_refl).
Defined.

(** X7: At start a missing data file and a data file that does not parse both
    give an empty store with the counter 0, and the file then holds the empty
    list: what a malformed file held is overwritten. *)
Theorem TaskManager_init_starts_empty w :
  data_file w = Missing \/
  (exists ts, data_file w = Text ts /\ json_loads ts = None) ->
  exists w',
    TaskManager_init w = (Ret (mkTaskManager [] 0), w') /\
    data_file w' = Text [LBracket; RBracket].
Proof.
  intros [H|(ts & H & E)]; unfold TaskManager_init.
  - unfold load_tasks, bind, get_world. rewrite H. cbn.
    eexists. split; reflexivity.
  - rewrite (bind_run _ _ _ _ _ (load_tasks_malformed _ _ H E)).
    eexists. split; reflexivity.
Qed.

Lemma TaskManager_init_starts_empty_witness :
  exists w',
    TaskManager_init (example_world (Text [LBracket; TStr "title"; TBad]) []) =
      (Ret (mkTaskManager [] 0), w') /\
    data_file w' = Text [LBracket; RBracket].
Proof.
  apply (TaskManager_init_starts_empty
           (example_world (Text [LBracket; TStr "title"; TBad]) [])).
  right. eexists. split; reflexivity.
Defined.

(** ** Starting again from a saved store *)

Lemma Task_of_doc_task_dict t w :
  truthy (created t) = true -> Task_of_doc (task_dict t) w = (Ret t, w).
Proof.
  intros H. destruct t as [ti de st cr nu]. cbn in *.
  unfold Task_init, bind. cbn. rewrite H. reflexivity.
Qed.

Lemma Tasks_of_docs_task_dict ts w :
  Forall (fun t => truthy (created t) = true) ts ->
  Tasks_of_docs (map task_dict ts) w = (Ret ts, w).
Proof.
  induction 1 as [|t ts Ht _ IH]; [reflexivity|].
  cbn [map Tasks_of_docs].
  rewrite (bind_run _ _ _ _ _ (Task_of_doc_task_dict t w Ht)).
  rewrite (bind_run _ _ _ _ _ IH). reflexivity.
Qed.

Lemma keys_unique_tasks_doc ts :
  Forall (fun t => keys_unique (task_dict t)) ts -> keys_unique (tasks_doc ts).
Proof. intros H. apply keys_unique_list. now apply Forall_map. Qed.

(** ** What the parser returns *)

Lemma dict_set_keys k v d k' :
  In k' (map fst (dict_set k v d)) <-> k' = k \/ In k' (map fst d).
Proof.
  induction d as [|[k0 v0] d IH]; simpl.
  - intuition.
  - destruct (String.eqb_spec k k0) as [->|Hne]; simpl; [intuition|].
    rewrite IH. intuition.
Qed.

Lemma dict_set_NoDup k v d :
  NoDup (map fst d) -> NoDup (map fst (dict_set k v d)).
Proof.
  induction d as [|[k0 v0] d IH]; simpl; intros H.
  - repeat constructor. auto.
  - inversion H as [|? ? Hnin Hd]; subst.
    destruct (String.eqb_spec k k0) as [->|Hne]; simpl.
    + now constructor.
    + constructor; [|auto]. rewrite dict_set_keys. intuition.
Qed.

Lemma dict_set_values (P : pyval -> Prop) k v d :
  P v -> Forall (fun kv => P (snd kv)) d ->
  Forall (fun kv => P (snd kv)) (dict_set k v d).
Proof.
  intros Hv. induction 1 as [|[k0 v0] d H0 Hd IH]; simpl.
  - repeat constructor. exact Hv.
  - destruct (String.eqb k k0); constructor; auto.
Qed.

Lemma dict_of_pairs_keys_unique pairs :
  Forall (fun kv => keys_unique (snd kv)) pairs ->
  keys_unique (PDict (dict_of_pairs pairs)).
Proof.
  intros H. apply keys_unique_dict. unfold dict_of_pairs.
  assert (G : forall acc,
             NoDup (map fst acc) /\ Forall (fun kv => keys_unique (snd kv)) acc ->
             NoDup (map fst (fold_left
                               (fun d kv => dict_set (fst kv) (snd kv) d) pairs acc)) /\
             Forall (fun kv => keys_unique (snd kv))
                    (fold_left (fun d kv => dict_set (fst kv) (snd kv) d) pairs acc)).
  { induction H as [|kv pairs Hkv _ IH]; intros acc [Hn Hf]; simpl; [auto|].
    apply IH. split; [now apply dict_set_NoDup | now apply dict_set_values]. }
  apply G. split; constructor.
Qed.

(** The shapes of a value the parser returns. *)
Lemma parse_value_shape f ts v r :
  parse_value (S f) ts = Some (v, r) ->
  keys_unique v \/
  (exists ts0 l, parse_items f ts0 = Some (l, r) /\ v = PList l) \/
  (exists ts0 d, parse_members f ts0 = Some (d, r) /\ v = PDict (dict_of_pairs d)).
Proof.
  intros H. cbn [parse_value] in H.
  destruct ts as [|t ts]; [discriminate|].
  destruct t; try discriminate;
    try (injection H as <- <-; left; exact I).
  - destruct ts as [|t ts].
    + destruct (parse_items f []) as [[l r']|] eqn:E; [|discriminate].
      injection H as <- <-. right. left. eauto.
    + destruct t;
        try (destruct (parse_items f _) as [[l r']|] eqn:E; [|discriminate];
             injection H as <- <-; right; left; eauto).
      injection H as <- <-. left. exact I.
  - destruct ts as [|t ts].
    + destruct (parse_members f []) as [[d r']|] eqn:E; [|discriminate].
      injection H as <- <-. right. right. eauto.
    + destruct t;
        try (destruct (parse_members f _) as [[d r']|] eqn:E; [|discriminate];
             injection H as <- <-; right; right; eauto).
      injection H as <- <-. left. simpl. split; constructor.
Qed.

Lemma parse_keys_unique fuel :
  (forall ts v r, parse_value fuel ts = Some (v, r) -> keys_unique v) /\
  (forall ts l r, parse_items fuel ts = Some (l, r) -> Forall keys_unique l) /\
  (forall ts d r, parse_members fuel ts = Some (d, r) ->
                  Forall (fun kv => keys_unique (snd kv)) d).
Proof.
  induction fuel as [|f (IHv & IHi & IHm)];
    [repeat split; intros; discriminate|].
  repeat split.
  - intros ts v r H.
    destruct (parse_value_shape _ _ _ _ H)
      as [Hk|[(ts0 & l & E & ->)|(ts0 & d & E & ->)]].
    + exact Hk.
    + apply keys_unique_list. eapply IHi. exact E.
    + apply dict_of_pairs_keys_unique. eapply IHm. exact E.
  - intros ts l r H. cbn [parse_items] in H.
    destruct (parse_value f ts) as [[x r1]|] eqn:Ev; [|discriminate].
    pose proof (IHv _ _ _ Ev) as Hx.
    destruct r1 as [|t r1]; [discriminate|].
    destruct t; try discriminate.
    + injection H as <- <-. repeat constructor. exact Hx.
    + destruct (parse_items f r1) as [[l2 r2]|] eqn:Ei; [|discriminate].
      injection H as <- <-. constructor; [exact Hx | eapply IHi; exact Ei].
  - intros ts d r H. cbn [parse_members] in H.
    destruct ts as [|t ts]; [discriminate|].
    destruct t; try discriminate.
    destruct ts as [|t ts]; [discriminate|].
    destruct t; try discriminate.
    destruct (parse_value f ts) as [[x r1]|] eqn:Ev; [|discriminate].
    pose proof (IHv _ _ _ Ev) as Hx.
    destruct r1 as [|t r1]; [discriminate|].
    destruct t; try discriminate.
    + injection H as <- <-. repeat constructor. exact Hx.
    + destruct (parse_members f r1) as [[d2 r2]|] eqn:Em; [|discriminate].
      injection H as <- <-. constructor; [exact Hx | eapply IHm; exact Em].
Qed.

Lemma json_loads_keys_unique ts v : json_loads ts = Some v -> keys_unique v.
Proof.
  unfold json_loads. intros H.
  destruct (parse_value (length ts) ts) as [[v0 [|t r]]|] eqn:E; try discriminate.
  injection H as <-. destruct (parse_keys_unique (length ts)) as (Hv & _).
  eapply Hv. exact E.
Qed.

(** ** Starting twice *)

Lemma keys_unique_dict_get d k x :
  keys_unique (PDict d) -> dict_get k d = Some x -> keys_unique x.
Proof.
  intros H. apply keys_unique_dict in H as [_ H].
  induction H as [|[k0 v0] d H0 _ IH]; simpl; [discriminate|].
  destruct (String.eqb k k0); [|exact IH].
  intros E. injection E as <-. exact H0.
Qed.

Lemma keys_unique_task_dict t :
  keys_unique (title t) -> keys_unique (description t) ->
  keys_unique (status t) -> keys_unique (created t) ->
  keys_unique (number t) -> keys_unique (task_dict t).
Proof.
  intros. simpl. split; [|tauto].
  repeat constructor; simpl; intuition discriminate.
Qed.

Lemma Task_of_doc_fields doc w t w' :
  keys_unique doc ->
  (forall k, time w k <> "") ->
  Task_of_doc doc w = (Ret t, w') ->
  keys_unique (task_dict t) /\ truthy (created t) = true /\ same_but_clock w w'.
Proof.
  intros Hk Ht H.
  destruct doc as [ | | | | | |d]; try discriminate. cbn [Task_of_doc] in H.
  destruct (forallb _ d); [|discriminate].
  destruct (dict_get "title" d) as [ti|] eqn:E1; [|discriminate].
  destruct (dict_get "description" d) as [de|] eqn:E2; [|discriminate].
  match type of H with Task_init ?a ?b ?c ?e ?f w = _ =>
    destruct (Task_init_run a b c e f w) as (w0 & E & Hw) end.
  rewrite E in H. injection H as <- <-.
  split; [|split; [|exact Hw]].
  - apply keys_unique_task_dict; cbn [title description status created number].
    + eapply keys_unique_dict_get; eassumption.
    + eapply keys_unique_dict_get; eassumption.
    + destruct (dict_get "status" d) eqn:E3; [|exact I].
      eapply keys_unique_dict_get; eassumption.
    + destruct (dict_get "created" d) as [c|] eqn:E4; [|exact I].
      destruct (truthy c); [|exact I].
      eapply keys_unique_dict_get; eassumption.
    + destruct (dict_get "number" d) eqn:E5; [|exact I].
      eapply keys_unique_dict_get; eassumption.
  - cbn [created].
    destruct (truthy (match dict_get "created" d with
                      | Some c => c | None => PNone end)) eqn:Ec; [exact Ec|].
    cbn. destruct (String.eqb_spec (time w (ticks w)) "") as [E0|_];
      [now apply Ht in E0 | reflexivity].
Qed.

Lemma Tasks_of_docs_fields docs : forall w built w',
  Forall keys_unique docs ->
  (forall k, time w k <> "") ->
  Tasks_of_docs docs w = (Ret built, w') ->
  Forall (fun t => keys_unique (task_dict t)) built /\
  Forall (fun t => truthy (created t) = true) built /\
  same_but_clock w w'.
Proof.
  induction docs as [|doc docs IH]; intros w built w' Hk Ht H;
    cbn [Tasks_of_docs] in H.
  - injection H as <- <-. repeat split; try constructor; try lia.
  - inversion Hk as [|? ? Hd Hds]; subst. unfold bind in H.
    destruct (Task_of_doc doc w) as [[t|e] w1] eqn:E1; [|discriminate].
    destruct (Tasks_of_docs docs w1) as [[ts|e] w2] eqn:E2; [|discriminate].
    injection H as <- <-.
    destruct (Task_of_doc_fields _ _ _ _ Hd Ht E1) as (A1 & A2 & A3).
    assert (Ht1 : forall k, time w1 k <> "").
    { destruct A3 as (_ & _ & _ & -> & _). exact Ht. }
    destruct (IH _ _ _ Hds Ht1 E2) as (B1 & B2 & B3).
    split; [|split]; [now constructor | now constructor |].
    eapply same_but_clock_trans; eassumption.
Qed.

Lemma fix_missing_numbers_fields (P : Task -> Prop) next ts :
  (forall t n, P t -> P (set_number t (PInt n))) ->
  Forall P ts -> Forall P (fst (fix_missing_numbers next ts)).
Proof.
  intros HP H. revert next.
  induction H as [|t ts Ht _ IH]; intros next; simpl; [constructor|].
  match goal with |- context [fix_missing_numbers ?n ts] =>
    specialize (IH n); destruct (fix_missing_numbers n ts) end.
  simpl in *. constructor; [|exact IH].
  destruct (negb (isinstance_int (number t)) || is_None (number t)); auto.
Qed.

Lemma load_tasks_keys_unique w v w1 :
  load_tasks w = (Ret v, w1) -> keys_unique v /\ time w1 = time w.
Proof.
  unfold load_tasks, bind, get_world.
  destruct (data_file w) as [ | | |ts] eqn:Hf; cbn; intros H;
    try discriminate; try (injection H as <- <-; split; [exact I | reflexivity]).
  destruct (json_loads ts) as [v0|] eqn:E; cbn in H; injection H as <- <-.
  - split; [eapply json_loads_keys_unique; exact E | reflexivity].
  - split; [exact I | reflexivity].
Qed.

Lemma py_iter_keys_unique v w docs w' :
  keys_unique v -> py_iter v w = (Ret docs, w') ->
  Forall keys_unique docs /\ w' = w.
Proof.
  destruct v as [ | | | |s|l|d]; try discriminate; cbn; intros Hk H;
    injection H as <- <-; (split; [|reflexivity]).
  - apply Forall_map. apply Forall_forall. intros; exact I.
  - now apply keys_unique_list.
  - apply Forall_map. apply Forall_forall. intros; exact I.
Qed.

(** The core of the two theorems on starting from a saved store. *)
Lemma TaskManager_init_saved ts w :
  data_file w = Text (json_dumps (tasks_doc ts)) ->
  Forall (fun t => keys_unique (task_dict t)) ts ->
  Forall (fun t => truthy (created t) = true) ts ->
  Forall (fun t => isinstance_int (number t) = true) ts ->
  TaskManager_init w = (Ret (mkTaskManager ts (next_after 1 ts - 1)), w).
Proof.
  intros Hf Hk Hc Hi.
  pose proof (load_tasks_parsed _ _ _ Hf
                (json_loads_dumps _ (keys_unique_tasks_doc _ Hk))) as Hl.
  destruct (TaskManager_init_built w (tasks_doc ts) w (map task_dict ts) ts w
              Hl eq_refl (Tasks_of_docs_task_dict ts w Hc))
    as (w' & Hr & Hw & H1 & H2 & H3 & H4 & H5 & H6).
  rewrite (fix_missing_numbers_kept _ _ Hi) in *. cbn [fst snd] in *.
  rewrite Hr. f_equal.
  destruct w, w'. cbn in *. congruence.
Qed.

(** X8: A store that was saved is found again at the next start: when the data
    file holds the saved tasks, whose numbers are integers and whose creation
    times are set, [TaskManager.__init__] returns these tasks, in order and
    unchanged, and changes nothing in the world.  The counter is not stored:
    it is computed again from the numbers of the tasks, so the numbers above
    the greatest one left, given before to tasks since deleted, are given
    again. *)
Theorem TaskManager_init_restores_saved_store ts w :
  data_file w = Text (json_dumps (tasks_doc ts)) ->
  Forall (fun t => keys_unique (task_dict t)) ts ->
  Forall (fun t => truthy (created t) = true) ts ->
  Forall (fun t => isinstance_int (number t) = true) ts ->
  TaskManager_init w = (Ret (mkTaskManager ts (next_after 1 ts - 1)), w).
Proof. apply TaskManager_init_saved. Qed.

Lemma TaskManager_init_restores_saved_store_witness :
  TaskManager_init
    (example_world (Text (json_dumps (tasks_doc (tasks example_store)))) []) =
  (Ret (mkTaskManager (tasks example_store) 3),
   example_world (Text (json_dumps (tasks_doc (tasks example_store)))) []).
Proof.
  apply (TaskManager_init_restores_saved_store (tasks example_store)
           (example_world (Text (json_dumps (tasks_doc (tasks example_store)))) [])
           eq_refl).
  - repeat constructor; simpl; intuition discriminate.
  - repeat constructor.
  - repeat constructor.
Defined.

(** X9: Starting is stable: when [TaskManager.__init__] returned, with a clock
    that never gives the empty string, a second [TaskManager.__init__] in the
    world it left returns the same store and changes nothing, the data file
    included: nothing is renumbered or lost the second time. *)
Theorem TaskManager_init_twice w self w' :
  (forall k, time w k <> "") ->
  TaskManager_init w = (Ret self, w') ->
  TaskManager_init w' = (Ret self, w').
Proof.
  intros Ht H. pose proof H as H0.
  unfold TaskManager_init, bind in H.
  destruct (load_tasks w) as [[v|e] w1] eqn:El; [|discriminate].
  destruct (py_iter v w1) as [[docs|e] w2] eqn:Ei; [|discriminate].
  destruct (Tasks_of_docs docs w2) as [[built|e] w3] eqn:Eb; [|discriminate].
  destruct (load_tasks_keys_unique _ _ _ El) as (Hkv & Htime).
  destruct (py_iter_keys_unique _ _ _ _ Hkv Ei) as (Hkd & ->).
  assert (Ht1 : forall k, time w1 k <> "") by (rewrite Htime; exact Ht).
  destruct (Tasks_of_docs_fields _ _ _ _ Hkd Ht1 Eb) as (Hk & Hc & _).
  pose proof (fix_missing_numbers_last 1 built) as Hlast.
  pose proof (fix_missing_numbers_int 1 built) as Hint.
  pose proof (fix_missing_numbers_fields
                (fun t => keys_unique (task_dict t)) 1 built) as Hk'.
  pose proof (fix_missing_numbers_fields
                (fun t => truthy (created t) = true) 1 built) as Hc'.
  destruct (fix_missing_numbers 1 built) as [ts last]. cbn [fst snd] in *.
  cbn in H. injection H as <- <-. rewrite Hlast.
  apply TaskManager_init_saved; auto.
  apply Hk'; [|exact Hk]. intros t n Hp. destruct t; simpl in *. tauto.
Qed.

Lemma TaskManager_init_twice_witness :
  exists self w',
    TaskManager_init (example_world (Text text_missing_then_one) []) = (Ret self, w') /\
    TaskManager_init w' = (Ret self, w').
Proof.
  do 2 eexists. split; [reflexivity|].
  apply (TaskManager_init_twice (example_world (Text text_missing_then_one) [])).
  - intros k. discriminate.
  - reflexivity.
Defined.

(** ** Loading, clearing and the repair once more *)

(** X10: [load_tasks] changes the world only when the data file is missing: a
    file that exists is left as it is, and loading again gives the same
    value and changes nothing. *)
Theorem load_tasks_twice w v w1 :
  load_tasks w = (Ret v, w1) ->
  load_tasks w1 = (Ret v, w1) /\ (data_file w <> Missing -> w1 = w).
Proof.
  unfold load_tasks, bind, get_world.
  destruct (data_file w) as [ | | |ts] eqn:Hf; cbn; intros H; try discriminate.
  - injection H as <- <-. split; [reflexivity | congruence].
  - injection H as <- <-. rewrite Hf. split; reflexivity.
  - destruct (json_loads ts) as [v0|] eqn:E; cbn in H; injection H as <- <-;
      rewrite Hf, E; split; reflexivity.
Qed.

Lemma load_tasks_twice_witness :
  exists w1,
    load_tasks (example_world Missing []) = (Ret (PList []), w1) /\
    load_tasks w1 = (Ret (PList []), w1).
Proof.
  eexists. split; [reflexivity|].
  exact (proj1 (load_tasks_twice (example_world Missing []) _ _ eq_refl)).
Defined.

(** X11: Clearing keeps the counter, a new start does not: after the menu branch
    of [clear_task] the next [add_task] gives the number after the counter,
    and after a new [TaskManager.__init__] on the data file the branch left,
    it gives the number 1. *)
Theorem counter_survives_clear_but_not_restart self w title' description' :
  exists self1 w1,
    main_choice_6 self w = (Ret tt, self1, w1) /\
    tasks self1 = [] /\
    (exists r task w2,
        add_task title' description' self1 w1 =
          (r, mkTaskManager [task] (next_number self + 1), w2) /\
        number task = PInt (next_number self + 1)) /\
    (exists self2 w2 r task w3,
        TaskManager_init w1 = (Ret self2, w2) /\
        add_task title' description' self2 w2 =
          (r, mkTaskManager [task] 1, w3) /\
        number task = PInt 1).
Proof.
  do 2 eexists. split; [reflexivity|]. split; [reflexivity|]. split.
  - rewrite add_task_run. do 3 eexists. split; reflexivity.
  - do 5 eexists. split; [cbn; reflexivity|].
    rewrite add_task_run. split; reflexivity.
Qed.

(** X12: The repair of the numbers is idempotent: on tasks it has repaired it
    changes no number and ends with the same [next_number]. *)
Theorem fix_missing_numbers_idempotent next ts :
  fix_missing_numbers next (fst (fix_missing_numbers next ts)) =
  fix_missing_numbers next ts.
Proof.
  rewrite (fix_missing_numbers_kept next _ (fix_missing_numbers_int next ts)).
  rewrite <- fix_missing_numbers_last.
  now destruct (fix_missing_numbers next ts).
Qed.

(** X13: The defaults at start: a data file with one document that has only a
    title and a description gives a store of one task with these, the status
    Incomplete, the time of the start as creation time and the number 1; the
    counter is 1 and the completed document is saved. *)
Theorem TaskManager_init_defaults title' description' out typed clock k now
    rejects :
  let doc := PDict [("title", PStr title'); ("description", PStr description')] in
  let task := mkTask (PStr title') (PStr description') (PStr "Incomplete")
                     (PStr (clock k)) (PInt 1) in
  TaskManager_init
    (mkWorld (Text (json_dumps (PList [doc]))) out typed clock k now rejects) =
  (Ret (mkTaskManager [task] 1),
   mkWorld (Text (json_dumps (tasks_doc [task]))) out typed clock (S k) now
           rejects).
Proof. reflexivity. Qed.
